(** * Japanese transcript fetcher: selection and normalisation

    A shallow embedding of [fetch_japanese_transcript], the one function
    with decision logic in the repository.  It exists twice, once in
    [cloud_function/main.py] and once in [scripts/fetch_japanese_transcript.py];
    the two copies differ in the [source] tag of the result, in the extra
    [error_type] key of the generic handler, and in how a snippet is read
    (subscript or attribute).  Both are covered by one definition indexed by
    a [deployment].

    Conventions of the embedding:
    - a Python [str] is a list of Unicode code points ([list N]);
    - a Python [float] is Rocq's primitive binary64 [float];
    - a [dict] with keys decided at run time (the result) is a
      [gmap string value]; a dict literal of fixed shape (the transcript
      info, a segment) is a record;
    - an exception is a value of [exn], which stands for the subclasses of
      [Exception]; code that may raise returns an [outcome], and
      [try ... except] is [try_except];
    - the two external calls are inputs: [YouTubeTranscriptApi().list] is
      the argument [ytt_list], and the [fetch()] method of a transcript is
      the field [fetch] of its record;
    - [str.lower] is a parameter of the development, since its Unicode
      table is not in the repository;
    - the [print] calls write diagnostics only and are left out. *)

From Stdlib Require Import ZArith NArith List Bool Lia Floats Ascii String.
From stdpp Require Import gmap strings list.
Import ListNotations.

Local Open Scope N_scope.

(** ** Python strings *)

Definition str := list N.

(** An ASCII literal of the source, as code points. *)
Fixpoint lit (s : string) : str :=
  match s with
  | EmptyString => []
  | String c s' => N_of_ascii c :: lit s'
  end.

(** [s.startswith(prefix)] *)
Fixpoint startswith (s prefix : str) {struct prefix} : bool :=
  match prefix, s with
  | [], _ => true
  | _ :: _, [] => false
  | p :: prefix', c :: s' => (c =? p) && startswith s' prefix'
  end.

(** [s.endswith(suffix)] *)
Definition endswith (s suffix : str) : bool :=
  startswith (rev s) (rev suffix).

(** [sub in s] *)
Fixpoint contains (s sub : str) : bool :=
  startswith s sub ||
  match s with
  | [] => false
  | _ :: s' => contains s' sub
  end.

(** The code points for which [str.isspace] holds; [str.strip()] without an
    argument removes exactly these from both ends. *)
Definition isspace (c : N) : bool :=
  ((0x09 <=? c) && (c <=? 0x0D)) ||
  ((0x1C <=? c) && (c <=? 0x20)) ||
  (c =? 0x85) || (c =? 0xA0) || (c =? 0x1680) ||
  ((0x2000 <=? c) && (c <=? 0x200A)) ||
  (c =? 0x2028) || (c =? 0x2029) || (c =? 0x202F) || (c =? 0x205F) ||
  (c =? 0x3000).

Fixpoint lstrip (s : str) : str :=
  match s with
  | [] => []
  | c :: s' => if isspace c then lstrip s' else s
  end.

Definition rstrip (s : str) : str := rev (lstrip (rev s)).

(** [s.strip()] *)
Definition strip (s : str) : str := rstrip (lstrip s).

(** Truthiness of a string or a list: non-empty. *)
Definition truthy {A} (l : list A) : bool :=
  match l with [] => false | _ :: _ => true end.

(** Lower-casing restricted to ASCII letters.  The full Unicode table used
    by [str.lower] is not part of the repository: the development is
    parametric in it (see [Section Fetcher]) and [ascii_lower] is the
    instance used to run examples on ASCII names. *)
Definition ascii_lower_char (c : N) : N :=
  if (0x41 <=? c) && (c <=? 0x5A) then c + 0x20 else c.

Definition ascii_lower (s : str) : str := map ascii_lower_char s.

(** ** Exceptions and outcomes *)

Inductive exn :=
| TranscriptsDisabled (msg : str)
| NoTranscriptFound (msg : str)
| OtherException (type_name msg : str).

(** [str(e)] *)
Definition exn_str (e : exn) : str :=
  match e with
  | TranscriptsDisabled m | NoTranscriptFound m | OtherException _ m => m
  end.

(** [type(e).__name__] *)
Definition exn_type_name (e : exn) : str :=
  match e with
  | TranscriptsDisabled _ => lit "TranscriptsDisabled"
  | NoTranscriptFound _ => lit "NoTranscriptFound"
  | OtherException n _ => n
  end.

Inductive outcome (A : Type) :=
| Return (a : A)
| Raise (e : exn).
Arguments Return {A} a.
Arguments Raise {A} e.

(** Sequencing: an exception raised by the first statement skips the rest.
    It is registered as stdpp's monadic bind, so that a block of statements
    is written [x ← m; k]. *)
#[export] Instance outcome_bind : MBind outcome := fun A B k m =>
  match m with
  | Return a => k a
  | Raise e => Raise e
  end.

#[export] Instance outcome_ret : MRet outcome := fun A a => Return a.

(** An [except] clause: the test on the exception's class and the body. *)
Record except_clause (A : Type) := Except {
  catches : exn -> bool;
  handle : exn -> outcome A
}.
Arguments Except {A} catches handle.
Arguments catches {A} _ _.
Arguments handle {A} _ _.

(** [try: body  except ...:], the first clause that matches runs; an
    exception no clause matches propagates. *)
Definition try_except {A} (body : outcome A) (clauses : list (except_clause A))
  : outcome A :=
  match body with
  | Return a => Return a
  | Raise e =>
      match List.find (fun c => catches c e) clauses with
      | Some c => handle c e
      | None => Raise e
      end
  end.

Definition is_TranscriptsDisabled (e : exn) : bool :=
  match e with TranscriptsDisabled _ => true | _ => false end.

Definition is_NoTranscriptFound (e : exn) : bool :=
  match e with NoTranscriptFound _ => true | _ => false end.

(** Every member of [exn] is a subclass of [Exception]. *)
Definition is_Exception (e : exn) : bool := true.

(** ** Data *)

(** One timed caption unit as delivered by [fetch()]. *)
Record Snippet := {
  snippet_start : float;
  snippet_duration : float;
  snippet_text : str
}.

(** The dict appended to [segments]. *)
Record Segment := {
  seg_start : float;
  seg_duration : float;
  seg_end : float;
  seg_text : str
}.

(** A transcript object of the catalog; [fetch] is the outcome of its
    [fetch()] method, which the function calls at most once. *)
Record Transcript := {
  language : str;
  language_code : str;
  is_generated : bool;
  is_translatable : bool;
  fetch : outcome (list Snippet)
}.

(** The dict [transcript_info]. *)
Record TranscriptInfo := {
  info_language : str;
  info_language_code : str;
  info_is_generated : bool;
  info_is_translatable : bool
}.

(** An element of [japanese_transcripts]. *)
Record JapaneseEntry := {
  entry_transcript : Transcript;
  entry_info : TranscriptInfo
}.

(** Values stored in the result dict. *)
Inductive value :=
| VBool (b : bool)
| VInt (n : Z)
| VFloat (f : float)
| VStr (s : str)
| VStrList (l : list str)
| VSegments (l : list Segment).

(** The two copies of the function. *)
Inductive deployment := CloudFunction | Script.

Definition source_tag (d : deployment) : str :=
  match d with
  | CloudFunction => lit "gcp-cloud-function"
  | Script => lit "python-transcript-api"
  end.

(** [a == b] on strings *)
Fixpoint str_eqb (a b : str) : bool :=
  match a, b with
  | [], [] => true
  | x :: a', y :: b' => (x =? y) && str_eqb a' b'
  | _, _ => false
  end.

(** The literal of line 39/40: U+65E5 U+672C U+8A9E. *)
Definition nihongo : str := [0x65E5; 0x672C; 0x8A9E].

(** ** The function *)

Section Fetcher.

(** [str.lower], see [ascii_lower]. *)
Variable lower : str -> str.

(** The test of the first loop: code ['ja'], or a name that says so. *)
Definition is_japanese (transcript : Transcript) : bool :=
  str_eqb (language_code transcript) (lit "ja") ||
  contains (lower (language transcript)) (lit "japanese") ||
  contains (language transcript) nihongo.

Definition transcript_info_of (transcript : Transcript) : TranscriptInfo :=
  {| info_language := language transcript;
     info_language_code := language_code transcript;
     info_is_generated := is_generated transcript;
     info_is_translatable := is_translatable transcript |}.

(** Body of [for transcript in transcript_list], on the pair
    [(available_transcripts, japanese_transcripts)]. *)
Definition collect_step (acc : list TranscriptInfo * list JapaneseEntry)
    (transcript : Transcript) : list TranscriptInfo * list JapaneseEntry :=
  let '(available_transcripts, japanese_transcripts) := acc in
  let transcript_info := transcript_info_of transcript in
  let available_transcripts := available_transcripts ++ [transcript_info] in
  if is_japanese transcript then
    (available_transcripts,
     japanese_transcripts ++
       [{| entry_transcript := transcript; entry_info := transcript_info |}])
  else (available_transcripts, japanese_transcripts).

Definition collect (transcript_list : list Transcript)
  : list TranscriptInfo * list JapaneseEntry :=
  fold_left collect_step transcript_list ([], []).

(** [if japanese_transcripts: ... else: ...]; [None] is the [else] branch,
    which returns the no-Japanese result. *)
Definition select (japanese_transcripts : list JapaneseEntry)
  : option Transcript :=
  match japanese_transcripts with
  | [] => None
  | first :: _ =>
      let manual_japanese :=
        List.filter (fun jt => negb (info_is_generated (entry_info jt)))
                    japanese_transcripts in
      match manual_japanese with
      | manual :: _ => Some (entry_transcript manual)
      | [] => Some (entry_transcript first)
      end
  end.

(** Body of [for snippet in fetched_transcript].  The snippet's fields are
    floats already, so [float(...)] leaves them as they are. *)
Definition normalize_step (segments : list Segment) (snippet : Snippet)
  : list Segment :=
  let start := snippet_start snippet in
  let duration := snippet_duration snippet in
  let end_ := (start + duration)%float in
  let text := strip (snippet_text snippet) in
  if truthy text && negb (startswith text (lit "[") && endswith text (lit "]"))
  then segments ++
         [{| seg_start := start; seg_duration := duration;
             seg_end := end_; seg_text := text |}]
  else segments.

Definition normalize (fetched_transcript : list Snippet) : list Segment :=
  fold_left normalize_step fetched_transcript [].

(** [t['language'] + ' (' + t['language_code'] + ')'] *)
Definition catalog_label (t : TranscriptInfo) : str :=
  info_language t ++ lit " (" ++ info_language_code t ++ lit ")".

(** [jt['info']['language'] + (' (auto)' if ... else ' (manual)')] *)
Definition japanese_label (jt : JapaneseEntry) : str :=
  info_language (entry_info jt) ++
  (if info_is_generated (entry_info jt) then lit " (auto)" else lit " (manual)").

(** [segments[-1]['end'] if segments else 0]: a float, or the integer 0. *)
Definition total_duration (segments : list Segment) : value :=
  match last segments with
  | Some s => VFloat (seg_end s)
  | None => VInt 0
  end.

Definition no_japanese_result (d : deployment) (video_id : str)
    (available_transcripts : list TranscriptInfo) : gmap string value :=
  list_to_map
    [("available", VBool false);
     ("videoId", VStr video_id);
     ("message", VStr (lit "No Japanese transcripts available for this video"));
     ("availableLanguages", VStrList (map catalog_label available_transcripts));
     ("source", VStr (source_tag d))].

Definition found_result (d : deployment) (video_id : str)
    (selected_transcript : Transcript)
    (japanese_transcripts : list JapaneseEntry) (segments : list Segment)
  : gmap string value :=
  list_to_map
    [("available", VBool true);
     ("videoId", VStr video_id);
     ("title", VStr (lit "Video " ++ video_id));
     ("language", VStr (language selected_transcript));
     ("languageCode", VStr (language_code selected_transcript));
     ("isJapanese", VBool true);
     ("isGenerated", VBool (is_generated selected_transcript));
     ("availableLanguages", VStrList (map japanese_label japanese_transcripts));
     ("segments", VSegments segments);
     ("totalSegments", VInt (Z.of_nat (length segments)));
     ("totalDuration", total_duration segments);
     ("source", VStr (source_tag d))].

Definition disabled_result (d : deployment) (video_id : str)
  : gmap string value :=
  list_to_map
    [("available", VBool false);
     ("videoId", VStr video_id);
     ("message", VStr (lit "Transcripts are disabled for this video"));
     ("source", VStr (source_tag d))].

Definition no_transcript_result (d : deployment) (video_id : str) (e : exn)
  : gmap string value :=
  list_to_map
    [("available", VBool false);
     ("videoId", VStr video_id);
     ("message", VStr (lit "No transcript found: " ++ exn_str e));
     ("source", VStr (source_tag d))].

(** Only the cloud function adds [error_type]. *)
Definition error_result (d : deployment) (video_id : str) (e : exn)
  : gmap string value :=
  list_to_map
    ([("available", VBool false);
      ("videoId", VStr video_id);
      ("message", VStr (lit "Error fetching transcript: " ++ exn_str e))] ++
     match d with
     | CloudFunction => [("error_type", VStr (exn_type_name e))]
     | Script => []
     end ++
     [("source", VStr (source_tag d))]).

(** [ytt_list] stands for [YouTubeTranscriptApi().list]. *)
Definition fetch_japanese_transcript (d : deployment)
    (ytt_list : str -> outcome (list Transcript)) (video_id : str)
  : outcome (gmap string value) :=
  try_except
    (transcript_list ← ytt_list video_id;
     let '(available_transcripts, japanese_transcripts) :=
       collect transcript_list in
     match select japanese_transcripts with
     | None =>
         mret (no_japanese_result d video_id available_transcripts)
     | Some selected_transcript =>
         fetched_transcript ← fetch selected_transcript;
         let segments := normalize fetched_transcript in
         mret (found_result d video_id selected_transcript
                            japanese_transcripts segments)
     end)
    [Except is_TranscriptsDisabled
       (fun _ => mret (disabled_result d video_id));
     Except is_NoTranscriptFound
       (fun e => mret (no_transcript_result d video_id e));
     Except is_Exception
       (fun e => mret (error_result d video_id e))].

End Fetcher.

(** ** The callers

    [get_japanese_transcript] is the HTTP entry point of the cloud function
    and [main] the entry point of the script.  A request is what the handler
    reads of it: the method, the query arguments, and what
    [request.get_json(silent=True)] returns ([JNull] for [None]). *)

#[warnings="-register-all"]
Inductive json :=
| JNull
| JBool (b : bool)
| JInt (n : Z)
| JFloat (f : float)
| JStr (s : str)
| JList (l : list json)
| JDict (m : gmap (list N) json).

(** Truthiness of a JSON value: [None], [False], zero, and the empty string,
    list and dict are false. *)
Definition json_truthy (v : json) : bool :=
  match v with
  | JNull => false
  | JBool b => b
  | JInt n => negb (n =? 0)%Z
  | JFloat f => negb (f =? 0)%float
  | JStr s => truthy s
  | JList l => truthy l
  | JDict m => negb (bool_decide (m = ∅))
  end.

Record Request := {
  method : str;
  args : gmap (list N) str;
  get_json : json
}.

(** The first component of the tuple the handler returns: the empty string,
    or [jsonify] of a dict. *)
Inductive response_body :=
| TextBody (s : str)
| JsonBody (d : gmap string value).

Record Response := {
  resp_body : response_body;
  resp_status : Z;
  resp_headers : gmap string str
}.

Definition preflight_headers : gmap string str :=
  list_to_map
    [("Access-Control-Allow-Origin", lit "*");
     ("Access-Control-Allow-Methods", lit "GET, POST");
     ("Access-Control-Allow-Headers", lit "Content-Type");
     ("Access-Control-Max-Age", lit "3600")].

Definition main_headers : gmap string str :=
  list_to_map
    [("Access-Control-Allow-Origin", lit "*");
     ("Content-Type", lit "application/json")].

Definition missing_id_body : gmap string value :=
  list_to_map
    [("error", VStr (lit "Video ID is required"));
     ("message",
      VStr (lit "Please provide videoId as query parameter or in request body"))].

Definition internal_error_body (e : exn) : gmap string value :=
  list_to_map
    [("error", VStr (lit "Internal server error"));
     ("message", VStr (exn_str e));
     ("available", VBool false);
     ("source", VStr (lit "gcp-cloud-function"))].

(** What [main] leaves behind: [sys.exit(1)] after the usage line on the
    error stream, or the result printed on the output stream.  The text
    [json.dumps] makes of the result is not modelled: the output is the
    result itself. *)
Inductive process_end :=
| SysExit (code : Z) (stderr : str)
| Printed (stdout : gmap string value).

Section Callers.

Variable lower : str -> str.

(** [YouTubeTranscriptApi().list] *)
Variable ytt_list : str -> outcome (list Transcript).

(** [fetch_japanese_transcript] on a video id that is not a string.  What
    the library does with such an id is not in the repository. *)
Variable fetch_other : json -> outcome (gmap string value).

(** The texts of the [TypeError]s of [in] and of subscripting, which vary
    with the interpreter. *)
Variable in_error : json -> str.
Variable getitem_error : json -> str.

(** [key in v] *)
Definition json_in (key : str) (v : json) : outcome bool :=
  match v with
  | JDict m => Return (bool_decide (is_Some (m !! key)))
  | JList l =>
      Return (existsb (fun x => match x with
                                | JStr s => str_eqb key s
                                | _ => false
                                end) l)
  | JStr s => Return (contains s key)
  | JNull | JBool _ | JInt _ | JFloat _ =>
      Raise (OtherException (lit "TypeError") (in_error v))
  end.

(** [v[key]], for a key that is a string. *)
Definition json_getitem (v : json) (key : str) : outcome json :=
  match v with
  | JDict m =>
      match m !! key with
      | Some x => Return x
      | None => Raise (OtherException (lit "KeyError") (getitem_error v))
      end
  | _ => Raise (OtherException (lit "TypeError") (getitem_error v))
  end.

(** [request.args.get('videoId')] *)
Definition args_get (request : Request) (key : str) : json :=
  match args request !! key with
  | Some s => JStr s
  | None => JNull
  end.

(** The call [fetch_japanese_transcript(video_id)] of the handler. *)
Definition call_fetch (video_id : json) : outcome (gmap string value) :=
  match video_id with
  | JStr s => fetch_japanese_transcript lower CloudFunction ytt_list s
  | _ => fetch_other video_id
  end.

(** The statements of the handler's [try] that set [video_id]. *)
Definition read_video_id (request : Request) : outcome json :=
  if str_eqb (method request) (lit "GET") then
    mret (args_get request (lit "videoId"))
  else if str_eqb (method request) (lit "POST") then
    let request_json := get_json request in
    found ← (if json_truthy request_json
             then json_in (lit "videoId") request_json
             else Return false);
    if (found : bool) then json_getitem request_json (lit "videoId")
    else mret JNull
  else mret JNull.

Definition get_japanese_transcript (request : Request) : outcome Response :=
  if str_eqb (method request) (lit "OPTIONS") then
    mret {| resp_body := TextBody [];
            resp_status := 204;
            resp_headers := preflight_headers |}
  else
    let headers := main_headers in
    try_except
      (video_id ← read_video_id request;
       if negb (json_truthy video_id) then
         mret {| resp_body := JsonBody missing_id_body;
                 resp_status := 400;
                 resp_headers := headers |}
       else
         result ← call_fetch video_id;
         mret {| resp_body := JsonBody result;
                 resp_status := 200;
                 resp_headers := headers |})
      [Except is_Exception
         (fun e => mret {| resp_body := JsonBody (internal_error_body e);
                           resp_status := 500;
                           resp_headers := headers |})].

Definition usage : str :=
  lit "Usage: python3 fetch_japanese_transcript.py <video_id>".

(** [main], on [sys.argv]. *)
Definition main (argv : list str) : outcome process_end :=
  if negb (length argv =? 2)%nat then mret (SysExit 1 usage)
  else
    video_id ← match argv !! 1%nat with
               | Some a => mret a
               | None => Raise (OtherException (lit "IndexError")
                                  (lit "list index out of range"))
               end;
    result ← fetch_japanese_transcript lower Script ytt_list video_id;
    mret (Printed result).

End Callers.

(** ** Vocabulary of the specification

    The definitions below are not in the source: they name what the
    specification talks about, for the statements to compare the code with. *)

(** The element the first loop appends to [japanese_transcripts]. *)
Definition entry_of (t : Transcript) : JapaneseEntry :=
  {| entry_transcript := t; entry_info := transcript_info_of t |}.

(** A manual Japanese candidate. *)
Definition manual_japanese (lower : str -> str) (t : Transcript) : bool :=
  is_japanese lower t && negb (is_generated t).

(** The Selector of the specification: the transcript the function goes on
    with, as a function of the catalog. *)
Definition selector (lower : str -> str) (catalog : list Transcript)
  : option Transcript :=
  select (snd (collect lower catalog)).

(** A bracket-only annotation: starts with "[" and ends with "]". *)
Definition bracketed (text : str) : Prop :=
  (exists t, text = lit "[" ++ t) /\ (exists t, text = t ++ lit "]").

(** The drop rule of the Normalizer, on the trimmed text. *)
Definition dropped (snippet : Snippet) : Prop :=
  strip (snippet_text snippet) = [] \/ bracketed (strip (snippet_text snippet)).

(** The segment a retained snippet gives. *)
Definition segment_of (snippet : Snippet) : Segment :=
  {| seg_start := snippet_start snippet;
     seg_duration := snippet_duration snippet;
     seg_end := (snippet_start snippet + snippet_duration snippet)%float;
     seg_text := strip (snippet_text snippet) |}.

(** The Normalizer as a relation: snippets are visited in order, a dropped
    one leaves no trace, a retained one gives its own segment, and nothing
    else happens to the sequence. *)
Inductive Normalized : list Snippet -> list Segment -> Prop :=
| Normalized_nil : Normalized [] []
| Normalized_drop snippet rest segments :
    dropped snippet -> Normalized rest segments ->
    Normalized (snippet :: rest) segments
| Normalized_keep snippet rest segments :
    ~ dropped snippet -> Normalized rest segments ->
    Normalized (snippet :: rest) (segment_of snippet :: segments).

(** Number of binary digits of a mantissa. *)
Definition digits (m : positive) : Z := Zpos (digits2_pos m).

(** The ways a run of the function ends, with the result of each. *)
Inductive run (lower : str -> str) (d : deployment)
    (ytt_list : str -> outcome (list Transcript)) (video_id : str)
  : gmap string value -> Prop :=
| run_no_japanese catalog :
    ytt_list video_id = Return catalog ->
    selector lower catalog = None ->
    run lower d ytt_list video_id
      (no_japanese_result d video_id (map transcript_info_of catalog))
| run_found catalog selected snippets :
    ytt_list video_id = Return catalog ->
    selector lower catalog = Some selected ->
    fetch selected = Return snippets ->
    run lower d ytt_list video_id
      (found_result d video_id selected (snd (collect lower catalog))
                    (normalize snippets))
| run_list_raised e :
    ytt_list video_id = Raise e ->
    run lower d ytt_list video_id
      (match e with
       | TranscriptsDisabled _ => disabled_result d video_id
       | NoTranscriptFound _ => no_transcript_result d video_id e
       | OtherException _ _ => error_result d video_id e
       end)
| run_fetch_raised catalog selected e :
    ytt_list video_id = Return catalog ->
    selector lower catalog = Some selected ->
    fetch selected = Raise e ->
    run lower d ytt_list video_id
      (match e with
       | TranscriptsDisabled _ => disabled_result d video_id
       | NoTranscriptFound _ => no_transcript_result d video_id e
       | OtherException _ _ => error_result d video_id e
       end).

(** ** Vocabulary of the further properties *)


(** Two transcripts with the same name, code and generated flag; they may
    differ in [is_translatable] and in what their [fetch()] does. *)
Definition same_track (t1 t2 : Transcript) : Prop :=
  language t1 = language t2 /\
  language_code t1 = language_code t2 /\
  is_generated t1 = is_generated t2.

(** A segment read back as a snippet. *)
Definition snippet_of (seg : Segment) : Snippet :=
  {| snippet_start := seg_start seg;
     snippet_duration := seg_duration seg;
     snippet_text := seg_text seg |}.

(** The three responses of the handler past the preflight: the id is
    missing, an exception was caught, the function returned. *)
Definition bad_request : Response :=
  {| resp_body := JsonBody missing_id_body;
     resp_status := 400;
     resp_headers := main_headers |}.

Definition server_error (e : exn) : Response :=
  {| resp_body := JsonBody (internal_error_body e);
     resp_status := 500;
     resp_headers := main_headers |}.

Definition ok_response (r : gmap string value) : Response :=
  {| resp_body := JsonBody r;
     resp_status := 200;
     resp_headers := main_headers |}.

(** ['videoId' == x] for an element [x] of a JSON list. *)
Definition is_video_id_key (x : json) : bool :=
  match x with JStr s => str_eqb (lit "videoId") s | _ => false end.

(** The label of a Japanese candidate in a Found result. *)
Definition track_label (t : Transcript) : str :=
  language t ++ (if is_generated t then lit " (auto)" else lit " (manual)").

(** ** Sample inputs *)

(** U+3053 U+3093 U+306B U+3061 U+306F *)
Definition konnichiwa : str := [0x3053; 0x3093; 0x306B; 0x3061; 0x306F].

Definition sample_snippets : list Snippet :=
  [{| snippet_start := 0%float; snippet_duration := 2%float;
      snippet_text := konnichiwa |};
   {| snippet_start := 2%float; snippet_duration := 1%float;
      snippet_text := lit "[applause]" |}].

Definition ja_manual : Transcript :=
  {| language := lit "Japanese"; language_code := lit "ja";
     is_generated := false; is_translatable := true;
     fetch := Return sample_snippets |}.

Definition ja_auto : Transcript :=
  {| language := lit "Japanese (auto-generated)"; language_code := lit "ja";
     is_generated := true; is_translatable := true;
     fetch := Return sample_snippets |}.

(** A Japanese track named in Japanese only, under another code. *)
Definition nihongo_auto : Transcript :=
  {| language := nihongo; language_code := lit "ja-JP";
     is_generated := true; is_translatable := false;
     fetch := Return [] |}.

Definition english : Transcript :=
  {| language := lit "English"; language_code := lit "en";
     is_generated := false; is_translatable := true;
     fetch := Return [] |}.

(** A Japanese track whose [fetch()] raises [NoTranscriptFound]. *)
Definition ja_unfetchable : Transcript :=
  {| language := lit "Japanese"; language_code := lit "ja";
     is_generated := false; is_translatable := true;
     fetch := Raise (NoTranscriptFound (lit "no data")) |}.

(** One snippet, start 1.0 and duration 2.5. *)
Definition ja_single : Transcript :=
  {| language := lit "JAPANESE"; language_code := lit "jp";
     is_generated := false; is_translatable := true;
     fetch := Return [{| snippet_start := 1.0%float;
                         snippet_duration := 2.5%float;
                         snippet_text := lit "  hello " |}] |}.

(** A name that is not Japanese under an upper-case code. *)
Definition upper_code : Transcript :=
  {| language := lit "Nihongo"; language_code := lit "JA";
     is_generated := false; is_translatable := true;
     fetch := Return [] |}.

Definition music : Snippet :=
  {| snippet_start := 0%float; snippet_duration := 1.5%float;
     snippet_text := lit "  [music] " |}.

(** U+3000 is the ideographic space. *)
Definition blank : Snippet :=
  {| snippet_start := 1.5%float; snippet_duration := 0.5%float;
     snippet_text := [0x20; 0x3000; 0x09; 0x0A] |}.

Definition partial : Snippet :=
  {| snippet_start := 2%float; snippet_duration := 3.25%float;
     snippet_text := lit " [partial] hello" ++ [0x0A] |}.

Definition video : str := lit "dQw4w9WgXcQ".

(** A catalog lookup that answers the same for every video. *)
Definition always (o : outcome (list Transcript))
  : str -> outcome (list Transcript) := fun _ => o.

(** ** Sample inputs of the further properties *)

Definition sample_catalog : list Transcript := [ja_auto; ja_manual].

(** [sample_catalog] with other [is_translatable] flags and a first
    transcript whose [fetch()] raises. *)
Definition sample_catalog_variant : list Transcript :=
  [{| language := lit "Japanese (auto-generated)"; language_code := lit "ja";
      is_generated := true; is_translatable := false;
      fetch := Raise (OtherException (lit "IpBlocked") (lit "blocked")) |};
   {| language := lit "Japanese"; language_code := lit "ja";
      is_generated := false; is_translatable := false;
      fetch := Return sample_snippets |}].

Definition sample_found (d : deployment) : gmap string value :=
  found_result d video ja_manual (snd (collect ascii_lower sample_catalog))
               (normalize sample_snippets).

(** Speech between two annotations. *)
Definition between : Snippet :=
  {| snippet_start := 4%float; snippet_duration := 2%float;
     snippet_text := lit " [laughs] hello [music] " |}.


Definition sample_fetch_other (v : json) : outcome (gmap string value) :=
  Raise (OtherException (lit "TypeError") (lit "video id is not a string")).

Definition sample_in_error (v : json) : str :=
  lit "argument of type 'int' is not iterable".

Definition sample_getitem_error (v : json) : str :=
  lit "list indices must be integers or slices, not str".

Definition sample_handler : Request -> outcome Response :=
  get_japanese_transcript ascii_lower (always (Return sample_catalog))
    sample_fetch_other sample_in_error sample_getitem_error.

Definition get_request : Request :=
  {| method := lit "GET";
     args := {[ lit "videoId" := video ]};
     get_json := JNull |}.

Definition post_request : Request :=
  {| method := lit "POST";
     args := ∅;
     get_json := JDict {[ lit "videoId" := JStr video ]} |}.

Definition post_list_request : Request :=
  {| method := lit "POST";
     args := ∅;
     get_json := JList [JInt 7; JStr (lit "videoId")] |}.

Definition put_request : Request :=
  {| method := lit "PUT";
     args := {[ lit "videoId" := video ]};
     get_json := JDict {[ lit "videoId" := JStr video ]} |}.

(** * Properties *)

(** ** Strings *)

Lemma str_eqb_eq (a b : str) : str_eqb a b = true <-> a = b.
Proof.
  revert b; induction a as [|x a IH]; intros [|y b]; simpl;
    try (split; [discriminate | congruence]); [tauto |].
  rewrite andb_true_iff, N.eqb_eq, IH.
  split; [intros [-> ->]; reflexivity | intros [= -> ->]; auto].
Qed.

Lemma startswith_spec (s p : str) :
  startswith s p = true <-> exists t, s = p ++ t.
Proof.
  revert s; induction p as [|c p IH]; intros s; simpl.
  - split; [intros _; exists s; reflexivity | reflexivity].
  - destruct s as [|x s].
    + split; [discriminate | intros [t Ht]; discriminate].
    + rewrite andb_true_iff, N.eqb_eq, IH. split.
      * intros [-> [t ->]]; eauto.
      * intros [t [= -> ->]]; eauto.
Qed.

Lemma endswith_spec (s p : str) :
  endswith s p = true <-> exists t, s = t ++ p.
Proof.
  unfold endswith. rewrite startswith_spec. split; intros [t Ht].
  - exists (rev t). rewrite <- (rev_involutive s), Ht, rev_app_distr.
    now rewrite rev_involutive.
  - exists (rev t). now rewrite Ht, rev_app_distr.
Qed.

Lemma contains_spec (s sub : str) :
  contains s sub = true <-> exists pre post, s = pre ++ sub ++ post.
Proof.
  induction s as [|c s IH]; simpl; rewrite orb_true_iff, startswith_spec.
  - split.
    + intros [[t Ht] | ?]; [exists [], t; exact Ht | discriminate].
    + intros [[|x pre] [post H]]; [left; eauto | discriminate].
  - rewrite IH. split.
    + intros [[t Ht] | [pre [post ->]]];
        [exists [], t; exact Ht | exists (c :: pre), post; reflexivity].
    + intros [[|x pre] [post H]]; [left; eauto |].
      injection H as -> ->. right; eauto.
Qed.

Lemma lstrip_nil (s : str) : lstrip s = [] <-> forallb isspace s = true.
Proof.
  induction s as [|c s IH]; simpl; [tauto |].
  destruct (isspace c); simpl; [exact IH | split; discriminate].
Qed.

Lemma lstrip_idem (s : str) : lstrip (lstrip s) = lstrip s.
Proof.
  induction s as [|c s IH]; simpl; [reflexivity |].
  destruct (isspace c) eqn:E; [exact IH | simpl; now rewrite E].
Qed.

Lemma forallb_rev {A} (f : A -> bool) (l : list A) :
  forallb f (rev l) = forallb f l.
Proof.
  induction l as [|x l IH]; simpl; [reflexivity |].
  rewrite forallb_app, IH; simpl. rewrite andb_true_r. apply andb_comm.
Qed.

(** The part [lstrip] removes is whitespace and what is left does not start
    with whitespace. *)
Lemma lstrip_split (s : str) :
  exists l, s = l ++ lstrip s /\ forallb isspace l = true /\
            match lstrip s with [] => True | c :: _ => isspace c = false end.
Proof.
  induction s as [|c s (l & Hs & Hl & Hh)]; simpl.
  - exists []; auto.
  - destruct (isspace c) eqn:E.
    + exists (c :: l); simpl. rewrite E, Hl. repeat split; [congruence | exact Hh].
    + exists []; auto.
Qed.

(** [strip] empties a string exactly when it holds nothing but whitespace. *)
Lemma strip_nil (s : str) : strip s = [] <-> forallb isspace s = true.
Proof.
  unfold strip, rstrip. split.
  - intros H. apply (f_equal (@rev N)) in H. rewrite rev_involutive in H.
    simpl in H. apply lstrip_nil in H. rewrite forallb_rev in H.
    apply lstrip_nil in H. rewrite lstrip_idem in H. now apply lstrip_nil.
  - intros H. apply lstrip_nil in H. now rewrite H.
Qed.

(** [strip s] is [s] without a leading and a trailing run of whitespace, and
    neither of its ends is whitespace. *)
Lemma strip_trims (s : str) :
  exists l r, s = l ++ strip s ++ r /\
    forallb isspace l = true /\ forallb isspace r = true /\
    match strip s with [] => True | c :: _ => isspace c = false end /\
    match rev (strip s) with [] => True | c :: _ => isspace c = false end.
Proof.
  destruct (lstrip_split s) as (l & Hs & Hl & Hh).
  destruct (lstrip_split (rev (lstrip s))) as (r & Hr & Hrs & Hrh).
  exists l, (rev r). unfold strip, rstrip.
  set (u := lstrip (rev (lstrip s))) in *.
  assert (Hu : lstrip s = rev u ++ rev r).
  { rewrite <- rev_app_distr, <- Hr. now rewrite rev_involutive. }
  rewrite rev_involutive, forallb_rev. repeat split; try assumption.
  - now rewrite <- Hu.
  - destruct (rev u) as [|c w] eqn:Ew; [exact I |].
    rewrite Hu in Hh. exact Hh.
Qed.

(** ** Binary64 addition

    [end = start + duration] is an IEEE 754 addition.  The lemmas of this
    part go through the specification of the primitive floats ([SFadd],
    [SFleb]) to show that it cannot take a non-negative start above the
    end. *)

Section Binary.

Local Open Scope Z_scope.

Variables prec emax : Z.
Hypothesis prec_pos : 0 < prec.

Local Abbreviation fexp := (SpecFloat.fexp prec emax).
Local Abbreviation emin := (SpecFloat.emin prec emax).

Lemma digits_bounds (m : positive) :
  2 ^ (digits m - 1) <= Zpos m < 2 ^ digits m.
Proof.
  unfold digits. induction m as [m IH | m IH |]; simpl digits2_pos.
  - rewrite Pos2Z.inj_succ.
    replace (Z.succ (Zpos (digits2_pos m)) - 1) with (Z.succ (Zpos (digits2_pos m) - 1)) by lia.
    rewrite !Z.pow_succ_r by lia. lia.
  - rewrite Pos2Z.inj_succ.
    replace (Z.succ (Zpos (digits2_pos m)) - 1) with (Z.succ (Zpos (digits2_pos m) - 1)) by lia.
    rewrite !Z.pow_succ_r by lia. lia.
  - simpl. lia.
Qed.

Lemma digits_pos (m : positive) : 0 < digits m.
Proof. unfold digits; lia. Qed.

Lemma fexp_mono (a b : Z) : a <= b -> fexp a <= fexp b.
Proof. unfold SpecFloat.fexp. lia. Qed.

Lemma fexp_emin (a : Z) : emin <= fexp a.
Proof. unfold SpecFloat.fexp. lia. Qed.

Lemma iter_xO (d m : positive) : Zpos (Pos.iter xO m d) = Zpos m * 2 ^ Zpos d.
Proof.
  induction d as [| d IH] using Pos.peano_ind.
  - simpl. lia.
  - rewrite Pos.iter_succ, Pos2Z.inj_xO, IH, Pos2Z.inj_succ, Z.pow_succ_r by lia. lia.
Qed.

Lemma shl_align_value (m : positive) (e e' : Z) :
  e' <= e ->
  Zpos (fst (shl_align m e e')) = Zpos m * 2 ^ (e - e').
Proof.
  intros H. unfold shl_align. destruct (e' - e) as [| p | p] eqn:E; simpl fst.
  - replace (e - e') with 0 by lia. lia.
  - lia.
  - rewrite iter_xO. f_equal. f_equal. lia.
Qed.

Lemma shr_1_m (mrs : shr_record) :
  0 <= shr_m mrs -> shr_m (shr_1 mrs) = shr_m mrs / 2.
Proof.
  destruct mrs as [m r s]; simpl. intros H.
  destruct m as [| [p | p |] | p]; simpl; try lia.
  - reflexivity.
  - apply Z.div_unique with 1; lia.
  - apply Z.div_unique with 0; lia.
  - reflexivity.
Qed.

Lemma iter_shr_1_m (p : positive) (mrs : shr_record) :
  0 <= shr_m mrs ->
  shr_m (SpecFloat.iter_pos shr_1 p mrs) = shr_m mrs / 2 ^ Zpos p.
Proof.
  revert mrs; induction p as [p IH | p IH |]; intros mrs H; simpl SpecFloat.iter_pos.
  - assert (H1 : 0 <= shr_m (shr_1 mrs)).
    { rewrite shr_1_m by assumption. apply Z.div_pos; lia. }
    assert (H2 : 0 <= shr_m (SpecFloat.iter_pos shr_1 p (shr_1 mrs))).
    { rewrite IH by assumption. apply Z.div_pos; [lia | apply Z.pow_pos_nonneg; lia]. }
    rewrite IH, IH, shr_1_m by assumption.
    rewrite !Z.div_div by (try apply Z.pow_pos_nonneg; lia).
    f_equal. replace (Zpos p~1) with (Zpos p + Zpos p + 1) by lia.
    rewrite !Z.pow_add_r by lia. change (2 ^ 1) with 2. ring.
  - assert (H2 : 0 <= shr_m (SpecFloat.iter_pos shr_1 p mrs)).
    { rewrite IH by assumption. apply Z.div_pos; [lia | apply Z.pow_pos_nonneg; lia]. }
    rewrite IH, IH by assumption.
    rewrite !Z.div_div by (try apply Z.pow_pos_nonneg; lia).
    f_equal. replace (Zpos p~0) with (Zpos p + Zpos p) by lia.
    rewrite !Z.pow_add_r by lia. ring.
  - rewrite shr_1_m by assumption. reflexivity.
Qed.

Lemma shr_spec (mrs : shr_record) (e n : Z) :
  0 <= shr_m mrs ->
  shr_m (fst (shr mrs e n)) = shr_m mrs / 2 ^ Z.max 0 n /\
  snd (shr mrs e n) = e + Z.max 0 n.
Proof.
  intros H. destruct n as [| p | p]; simpl fst; simpl snd.
  - change (Z.max 0 0) with 0. rewrite Z.div_1_r. lia.
  - rewrite iter_shr_1_m by assumption. replace (Z.max 0 (Zpos p)) with (Zpos p) by lia.
    auto.
  - replace (Z.max 0 (Zneg p)) with 0 by lia. rewrite Z.div_1_r. lia.
Qed.

Lemma round_nearest_even_bounds (m : Z) (l : location) :
  m <= round_nearest_even m l <= m + 1.
Proof.
  destruct l as [| []]; simpl; try lia. destruct (Z.even m); lia.
Qed.

(** What is left of a mantissa of [d] digits after the shift that [fexp]
    asks for is at least 1, as soon as the exponent is not below [emin]. *)
Lemma shifted_mantissa_pos (m : positive) (e : Z) :
  emin <= e ->
  1 <= Zpos m / 2 ^ Z.max 0 (fexp (digits m + e) - e).
Proof.
  intros He. pose proof (digits_bounds m) as [Hlo _].
  apply Z.div_le_lower_bound; [apply Z.pow_pos_nonneg; lia |].
  rewrite Z.mul_1_r. apply Z.le_trans with (2 ^ (digits m - 1)); [| exact Hlo].
  apply Z.pow_le_mono_r; [lia |]. unfold SpecFloat.fexp.
  pose proof (digits_pos m). lia.
Qed.

(** Rounding a sum that is at least the canonical number [(mx, ex)] gives
    infinity or a finite number that [SFcompare] puts at or above it. *)
Lemma binary_round_ge (s : positive) (ez : Z) (mx : positive) (ex : Z) :
  fexp (digits mx + ex) = ex ->
  ez <= ex ->
  Zpos mx * 2 ^ (ex - ez) <= Zpos s ->
  binary_round prec emax false s ez = S754_infinity false \/
  exists m e,
    binary_round prec emax false s ez = S754_finite false m e /\
    (ex < e \/ (ex = e /\ (mx <= m)%positive)).
Proof.
  intros Hcan Hez Hs.
  set (f := fexp (digits s + ez)).
  assert (Hpow : 0 < 2 ^ (ex - ez)) by (apply Z.pow_pos_nonneg; lia).
  assert (Hd : digits mx + ex <= digits s + ez).
  { pose proof (digits_bounds mx) as [Hlo _].
    pose proof (digits_bounds s) as [_ Hhi].
    pose proof (digits_pos mx).
    assert (2 ^ (digits mx - 1 + (ex - ez)) < 2 ^ digits s) as Hlt.
    { rewrite Z.pow_add_r by lia. nia. }
    apply Z.pow_lt_mono_r_iff in Hlt; [lia | lia |].
    pose proof (digits_pos s); lia. }
  assert (Hf : ex <= f).
  { unfold f. rewrite <- Hcan. now apply fexp_mono. }
  assert (Hemin : emin <= ex) by (rewrite <- Hcan; apply fexp_emin).
  unfold binary_round.
  assert (Hal : shl_align s ez (fexp (Zpos (digits2_pos s) + ez)) = (s, ez)).
  { fold (digits s). fold f. unfold shl_align.
    destruct (f - ez) eqn:E; try reflexivity. lia. }
  rewrite Hal. unfold binary_round_aux, shr_fexp.
  change (Zdigits2 (Zpos s)) with (digits s). fold f.
  destruct (shr _ ez (f - ez)) as [mrs' e'] eqn:E1.
  pose proof (shr_spec (shr_record_of_loc (Zpos s) loc_Exact) ez (f - ez)) as H1.
  rewrite E1 in H1. simpl fst in H1; simpl snd in H1; simpl shr_m in H1.
  destruct H1 as [Hm1 He']; [lia |].
  replace (Z.max 0 (f - ez)) with (f - ez) in * by lia.
  assert (He'f : e' = f) by lia. clear He'. subst e'.
  set (m1 := shr_m mrs') in *.
  set (m2 := round_nearest_even m1 (loc_of_shr_record mrs')).
  pose proof (round_nearest_even_bounds m1 (loc_of_shr_record mrs')) as Hm2.
  fold m2 in Hm2.
  assert (Hm1pos : 1 <= m1).
  { rewrite Hm1. pose proof (shifted_mantissa_pos s ez) as Hsh. fold f in Hsh.
    destruct (Z.eq_dec f ex) as [Efx | Nfx].
    - apply Z.div_le_lower_bound; [apply Z.pow_pos_nonneg; lia |].
      rewrite Efx. nia.
    - assert (emin < f) by lia.
      apply Z.div_le_lower_bound; [apply Z.pow_pos_nonneg; lia |].
      rewrite Z.mul_1_r. pose proof (digits_bounds s) as [Hlo _].
      apply Z.le_trans with (2 ^ (digits s - 1)); [| exact Hlo].
      apply Z.pow_le_mono_r; [lia |]. unfold f, SpecFloat.fexp in *. lia. }
  assert (Hm1x : f = ex -> Zpos mx <= m1).
  { intros Efx. rewrite Hm1, Efx.
    apply Z.div_le_lower_bound; [exact Hpow | lia]. }
  destruct m2 as [| p2 | p2] eqn:Em2; try lia.
  change (Zdigits2 (Zpos p2)) with (digits p2).
  destruct (shr _ f (fexp (digits p2 + f) - f)) as [mrs'' e''] eqn:E2.
  pose proof (shr_spec (shr_record_of_loc (Zpos p2) loc_Exact) f
                       (fexp (digits p2 + f) - f)) as H2.
  rewrite E2 in H2. simpl fst in H2; simpl snd in H2; simpl shr_m in H2.
  destruct H2 as [Hm3 He'']; [lia |].
  assert (Hfmin : emin <= f) by (apply fexp_emin).
  pose proof (shifted_mantissa_pos p2 f Hfmin) as Hm3pos.
  rewrite <- Hm3 in Hm3pos.
  destruct (shr_m mrs'') as [| m3 | m3] eqn:Em3; try lia.
  destruct (e'' <=? emax - prec); [right | left; reflexivity].
  exists m3, e''. split; [reflexivity |].
  destruct (Z.max_spec 0 (fexp (digits p2 + f) - f)) as [[Hn Hmax] | [Hn Hmax]];
    rewrite Hmax in *.
  - left. lia.
  - rewrite Z.div_1_r in Hm3.
    destruct (Z.eq_dec f ex) as [Efx | Nfx]; [right | left; lia].
    split; [lia |]. specialize (Hm1x Efx). lia.
Qed.

Local Abbreviation SFadd := (SpecFloat.SFadd prec emax).
Local Abbreviation valid_binary := (SpecFloat.valid_binary prec emax).

(** Adding a number that is at least zero does not take a number that is at
    least zero below itself. *)
Lemma SFadd_nonneg_ge (x y : spec_float) :
  valid_binary x = true -> valid_binary y = true ->
  SFleb (S754_zero false) x = true ->
  SFleb (S754_zero false) y = true ->
  SFleb x (SFadd x y) = true.
Proof.
  intros Vx Vy Hx Hy.
  destruct x as [sx | [] | | [] mx ex]; try discriminate Hx;
    destruct y as [sy | [] | | [] my ey]; try discriminate Hy;
    try reflexivity.
  - destruct sx, sy; reflexivity.
  - unfold SpecFloat.SFadd, SFleb, SFcompare.
    rewrite Z.compare_refl, Pos.compare_cont_refl. reflexivity.
  - unfold SpecFloat.SFadd.
    simpl in Vx, Vy. unfold bounded, canonical_mantissa in Vx, Vy.
    apply andb_true_iff in Vx as [Cx _]. apply Z.eqb_eq in Cx.
    set (ez := Z.min ex ey).
    assert (Hex : ez <= ex) by (unfold ez; lia).
    assert (Hey : ez <= ey) by (unfold ez; lia).
    simpl cond_Zopp.
    pose proof (shl_align_value mx ex ez Hex) as Ax.
    pose proof (shl_align_value my ey ez Hey) as Ay.
    destruct (shl_align mx ex ez) as [mx' ?], (shl_align my ey ez) as [my' ?].
    simpl fst in *. rewrite <- Pos2Z.inj_add. unfold binary_normalize.
    destruct (binary_round_ge (mx' + my') ez mx ex Cx Hex) as [-> | (m & e & -> & H)].
    + rewrite Pos2Z.inj_add, Ax. lia.
    + reflexivity.
    + unfold SFleb, SFcompare. destruct H as [H | [-> H]].
      * apply Z.compare_lt_iff in H. now rewrite H.
      * rewrite Z.compare_refl. fold (Pos.compare mx m).
        apply Pos.compare_le_iff in H. now destruct (Pos.compare mx m).
Qed.

End Binary.

Lemma float_add_nonneg_ge (x y : float) :
  (0 <=? x)%float = true -> (0 <=? y)%float = true ->
  (x <=? x + y)%float = true.
Proof.
  rewrite !leb_spec, add_spec. change (Prim2SF 0) with (S754_zero false).
  apply SFadd_nonneg_ge; [reflexivity | apply Prim2SF_valid ..].
Qed.

(** ** The second loop *)

Lemma normalize_fold (l : list Snippet) acc :
  fold_left normalize_step l acc = acc ++ normalize l.
Proof.
  unfold normalize. revert acc; induction l as [|sn l IH]; intros acc; simpl.
  - now rewrite app_nil_r.
  - rewrite IH, (IH (normalize_step [] sn)), app_assoc. f_equal.
    unfold normalize_step. destruct (_ && _); simpl; now rewrite ?app_nil_r.
Qed.

Lemma normalize_cons sn (l : list Snippet) :
  normalize (sn :: l) = normalize_step [] sn ++ normalize l.
Proof. unfold normalize at 1; simpl. apply normalize_fold. Qed.

Lemma normalize_app (l1 l2 : list Snippet) :
  normalize (l1 ++ l2) = normalize l1 ++ normalize l2.
Proof.
  induction l1 as [|sn l1 IH]; [reflexivity |].
  simpl. now rewrite !normalize_cons, IH, app_assoc.
Qed.

(** The test of the second loop is the drop rule. *)
Lemma keep_test_false (text : str) :
  truthy text && negb (startswith text (lit "[") && endswith text (lit "]"))
    = false <-> text = [] \/ bracketed text.
Proof.
  unfold bracketed. rewrite <- startswith_spec, <- endswith_spec.
  destruct text as [|c text]; simpl truthy; [intuition |].
  destruct (startswith _ _), (endswith _ _); simpl; intuition congruence.
Qed.

Lemma normalize_step_drop sn segments :
  dropped sn -> normalize_step segments sn = segments.
Proof.
  intros H. apply keep_test_false in H. unfold normalize_step. now rewrite H.
Qed.

Lemma normalize_step_keep sn segments :
  ~ dropped sn -> normalize_step segments sn = segments ++ [segment_of sn].
Proof.
  intros H. unfold dropped in H. rewrite <- keep_test_false in H.
  unfold normalize_step. now destruct (_ && _).
Qed.

Lemma dropped_dec sn : dropped sn \/ ~ dropped sn.
Proof.
  unfold dropped. rewrite <- keep_test_false. destruct (_ && _); auto.
Qed.

Lemma Normalized_normalize (snippets : list Snippet) :
  Normalized snippets (normalize snippets).
Proof.
  induction snippets as [|sn l IH]; [constructor |].
  rewrite normalize_cons. destruct (dropped_dec sn) as [H | H].
  - rewrite (normalize_step_drop _ _ H). now constructor.
  - rewrite (normalize_step_keep _ _ H). now constructor.
Qed.

(** The relation leaves no choice: it has one output per input. *)
Lemma Normalized_unique snippets segments :
  Normalized snippets segments -> segments = normalize snippets.
Proof.
  induction 1 as [|sn l r H _ IH | sn l r H _ IH]; [reflexivity | |];
    rewrite normalize_cons, IH.
  - now rewrite normalize_step_drop.
  - now rewrite normalize_step_keep.
Qed.

(** A segment of the output is the segment of a snippet that was not
    dropped. *)
Lemma In_normalize seg (snippets : list Snippet) :
  In seg (normalize snippets) ->
  exists sn, In sn snippets /\ ~ dropped sn /\ seg = segment_of sn.
Proof.
  induction snippets as [|sn l IH]; [intros [] |].
  rewrite normalize_cons. destruct (dropped_dec sn) as [H | H].
  - rewrite (normalize_step_drop _ _ H). intros Hin.
    destruct (IH Hin) as (x & ? & ? & ?). exists x. simpl; auto.
  - rewrite (normalize_step_keep _ _ H). intros [<- | Hin].
    + exists sn. simpl; auto.
    + destruct (IH Hin) as (x & ? & ? & ?). exists x. simpl; auto.
Qed.

(** ** First element that passes a test *)

Lemma find_filter {A} (f g : A -> bool) (l : list A) :
  List.find f (List.filter g l) = List.find (fun x => g x && f x) l.
Proof.
  induction l as [|x l IH]; simpl; [reflexivity |].
  destruct (g x); simpl; [destruct (f x) |]; auto.
Qed.

Lemma head_filter {A} (g : A -> bool) (l : list A) :
  head (List.filter g l) = List.find g l.
Proof.
  induction l as [|x l IH]; simpl; [reflexivity |]. now destruct (g x).
Qed.

Lemma find_first {A} (f : A -> bool) (pre : list A) x post :
  f x = true -> (forall y, In y pre -> f y = false) ->
  List.find f (pre ++ x :: post) = Some x.
Proof.
  intros Hx; induction pre as [|y pre IH]; intros Hpre; simpl.
  - now rewrite Hx.
  - rewrite (Hpre y) by now left. apply IH. intros; apply Hpre; now right.
Qed.

Lemma find_all_false {A} (f : A -> bool) (l : list A) :
  (forall y, In y l -> f y = false) -> List.find f l = None.
Proof.
  induction l as [|y l IH]; intros H; simpl; [reflexivity |].
  rewrite (H y) by now left. apply IH. intros; apply H; now right.
Qed.

(** ** The first loop, selection and the runs of the function *)

Section FetcherFacts.

Variable lower : str -> str.

Local Abbreviation is_japanese := (is_japanese lower).
Local Abbreviation collect := (collect lower).
Local Abbreviation selector := (selector lower).
Local Abbreviation manual_japanese := (manual_japanese lower).

Lemma collect_fold (l : list Transcript) acc :
  fold_left (collect_step lower) l acc =
  (fst acc ++ map transcript_info_of l,
   snd acc ++ map entry_of (List.filter is_japanese l)).
Proof.
  revert acc; induction l as [|t l IH]; intros [av ja]; simpl.
  - now rewrite !app_nil_r.
  - rewrite IH. destruct (is_japanese t); simpl;
      now rewrite <- ?app_assoc.
Qed.

(** The first loop keeps every transcript's info, and the Japanese ones,
    both in catalog order. *)
Lemma collect_spec (l : list Transcript) :
  collect l =
  (map transcript_info_of l, map entry_of (List.filter is_japanese l)).
Proof. unfold collect. now rewrite collect_fold. Qed.

Lemma manual_head (fallback : option Transcript) (l : list Transcript) :
  match List.filter (fun jt => negb (info_is_generated (entry_info jt)))
                    (map entry_of l) with
  | manual :: _ => Some (entry_transcript manual)
  | [] => fallback
  end =
  match List.find (fun t => negb (is_generated t)) l with
  | Some m => Some m
  | None => fallback
  end.
Proof.
  induction l as [|x l IH]; simpl; [reflexivity |].
  destruct (is_generated x); simpl; [exact IH | reflexivity].
Qed.

Lemma select_entries (js : list Transcript) :
  select (map entry_of js) =
  match List.find (fun t => negb (is_generated t)) js with
  | Some m => Some m
  | None => head js
  end.
Proof.
  destruct js as [|t js]; [reflexivity |].
  exact (manual_head (Some t) (t :: js)).
Qed.

(** The Selector in one line: the first manual Japanese transcript of the
    catalog, or else the first Japanese one. *)
Lemma selector_spec (catalog : list Transcript) :
  selector catalog =
  match List.find manual_japanese catalog with
  | Some m => Some m
  | None => List.find is_japanese catalog
  end.
Proof.
  unfold selector. rewrite collect_spec. simpl snd.
  now rewrite select_entries, find_filter, head_filter.
Qed.

Lemma selector_In catalog t : selector catalog = Some t -> In t catalog.
Proof.
  rewrite selector_spec.
  destruct (List.find manual_japanese catalog) eqn:E.
  - intros [= <-]. now apply find_some in E.
  - intros H. now apply find_some in H.
Qed.

(** The function returns on every input, and [run] lists how. *)
Lemma fetch_japanese_transcript_runs d ytt_list video_id :
  exists r, fetch_japanese_transcript lower d ytt_list video_id = Return r /\
            run lower d ytt_list video_id r.
Proof.
  unfold fetch_japanese_transcript.
  destruct (ytt_list video_id) as [catalog | e] eqn:El; simpl.
  - pose proof (eq_refl (selector catalog)) as Es.
    unfold selector at 1 in Es.
    pose proof (collect_spec catalog) as Ec.
    destruct (collect catalog) as [av ja] eqn:E. injection Ec as -> Eja.
    simpl snd in Es. destruct (select ja) as [t |]; simpl.
    + destruct (fetch t) as [snippets | e] eqn:Ef; simpl.
      * eexists; split; [reflexivity |].
        replace ja with (snd (collect catalog)) by now rewrite E.
        now apply run_found.
      * eexists; split;
          [| now apply (run_fetch_raised lower d ytt_list video_id catalog t e)].
        now destruct e.
    + eexists; split; [reflexivity |]. now apply run_no_japanese.
  - eexists; split; [| now apply (run_list_raised lower d ytt_list video_id e)].
    now destruct e.
Qed.

Lemma fetch_japanese_transcript_inv d ytt_list video_id r :
  fetch_japanese_transcript lower d ytt_list video_id = Return r ->
  run lower d ytt_list video_id r.
Proof.
  destruct (fetch_japanese_transcript_runs d ytt_list video_id) as (r' & E & H).
  rewrite E. now intros [= <-].
Qed.

Lemma found_available d video_id t ja segments :
  found_result d video_id t ja segments !! "available" = Some (VBool true).
Proof. reflexivity. Qed.

Lemma no_japanese_available d video_id av :
  no_japanese_result d video_id av !! "available" = Some (VBool false).
Proof. reflexivity. Qed.

Lemma handler_available d video_id e :
  match e with
  | TranscriptsDisabled _ => disabled_result d video_id
  | NoTranscriptFound _ => no_transcript_result d video_id e
  | OtherException _ _ => error_result d video_id e
  end !! "available" = Some (VBool false).
Proof. destruct e, d; reflexivity. Qed.

Lemma handler_no_languages d video_id e :
  match e with
  | TranscriptsDisabled _ => disabled_result d video_id
  | NoTranscriptFound _ => no_transcript_result d video_id e
  | OtherException _ _ => error_result d video_id e
  end !! "availableLanguages" = None.
Proof. destruct e, d; reflexivity. Qed.

(** A result with [available = True] comes from the one [return] that
    follows the second loop. *)
Lemma found_inv d ytt_list video_id r :
  fetch_japanese_transcript lower d ytt_list video_id = Return r ->
  r !! "available" = Some (VBool true) ->
  exists catalog selected snippets,
    ytt_list video_id = Return catalog /\
    selector catalog = Some selected /\
    fetch selected = Return snippets /\
    r = found_result d video_id selected (snd (collect catalog))
                     (normalize snippets).
Proof.
  intros H Ha. apply fetch_japanese_transcript_inv in H.
  destruct H as [catalog ? ? | catalog t snippets ? ? ? | e ? | catalog t e ? ? ?].
  - rewrite no_japanese_available in Ha. discriminate.
  - exists catalog, t, snippets. auto.
  - rewrite handler_available in Ha. discriminate.
  - rewrite handler_available in Ha. discriminate.
Qed.

(** The converse directions: what the function returns when the catalog
    and the fetch answer in a given way. *)
Lemma fetch_found d ytt_list video_id catalog selected snippets :
  ytt_list video_id = Return catalog ->
  selector catalog = Some selected ->
  fetch selected = Return snippets ->
  fetch_japanese_transcript lower d ytt_list video_id =
  Return (found_result d video_id selected (snd (collect catalog))
                       (normalize snippets)).
Proof.
  intros El Es Ef.
  destruct (fetch_japanese_transcript_runs d ytt_list video_id) as (r & -> & H).
  destruct H; congruence.
Qed.

Lemma fetch_no_japanese d ytt_list video_id catalog :
  ytt_list video_id = Return catalog ->
  selector catalog = None ->
  fetch_japanese_transcript lower d ytt_list video_id =
  Return (no_japanese_result d video_id (map transcript_info_of catalog)).
Proof.
  intros El Es.
  destruct (fetch_japanese_transcript_runs d ytt_list video_id) as (r & -> & H).
  destruct H; congruence.
Qed.

Lemma fetch_raised d ytt_list video_id e :
  ytt_list video_id = Raise e \/
  (exists catalog selected,
     ytt_list video_id = Return catalog /\
     selector catalog = Some selected /\
     fetch selected = Raise e) ->
  fetch_japanese_transcript lower d ytt_list video_id =
  Return (match e with
          | TranscriptsDisabled _ => disabled_result d video_id
          | NoTranscriptFound _ => no_transcript_result d video_id e
          | OtherException _ _ => error_result d video_id e
          end).
Proof.
  intros He.
  destruct (fetch_japanese_transcript_runs d ytt_list video_id) as (r & -> & H).
  destruct He as [El | (catalog & t & El & Es & Ef)];
    destruct H as [c ? ? | c t' sn ? ? ? | e' ? | c t' e' ? ? ?];
    try congruence.
  - assert (e' = e) as -> by congruence. reflexivity.
  - assert (c = catalog) as -> by congruence.
    assert (t' = t) as -> by congruence.
    assert (e' = e) as -> by congruence. reflexivity.
Qed.

End FetcherFacts.

(** ** The claims *)

Section Claims.

Variable lower : str -> str.

Local Abbreviation is_japanese := (is_japanese lower).
Local Abbreviation collect := (collect lower).
Local Abbreviation selector := (selector lower).
Local Abbreviation manual_japanese := (manual_japanese lower).

(** C1. Whenever the catalog holds a manual Japanese candidate, the Selector
    returns the first such candidate in catalog order, whatever
    auto-generated Japanese candidates come before or after it; when all
    Japanese candidates are auto-generated, it returns the first Japanese
    candidate in catalog order.  The language, code and generated flag of a
    Found result are those of the transcript the Selector returns. *)
Theorem C1_selector_first_manual_else_first_japanese
    (catalog : list Transcript) :
  (forall pre m post,
     catalog = pre ++ m :: post ->
     is_japanese m = true -> is_generated m = false ->
     (forall t, In t pre -> is_japanese t = true -> is_generated t = true) ->
     selector catalog = Some m) /\
  (forall pre a post,
     catalog = pre ++ a :: post ->
     is_japanese a = true ->
     (forall t, In t pre -> is_japanese t = false) ->
     (forall t, In t catalog -> is_japanese t = true -> is_generated t = true) ->
     selector catalog = Some a) /\
  (forall d ytt_list video_id r,
     ytt_list video_id = Return catalog ->
     fetch_japanese_transcript lower d ytt_list video_id = Return r ->
     r !! "available" = Some (VBool true) ->
     exists selected,
       selector catalog = Some selected /\
       r !! "language" = Some (VStr (language selected)) /\
       r !! "languageCode" = Some (VStr (language_code selected)) /\
       r !! "isGenerated" = Some (VBool (is_generated selected))).
Proof.
  split; [| split].
  - intros pre m post -> Hj Hm Hpre. rewrite selector_spec.
    rewrite (find_first manual_japanese pre m post); [reflexivity | |].
    + unfold manual_japanese. now rewrite Hj, Hm.
    + intros y Hy. unfold manual_japanese.
      destruct (is_japanese y) eqn:E; [| reflexivity].
      now rewrite (Hpre y Hy E).
  - intros pre a post E Hj Hpre Hall. rewrite selector_spec.
    rewrite (find_all_false manual_japanese catalog).
    + subst catalog. now apply find_first.
    + intros y Hy. unfold manual_japanese.
      destruct (is_japanese y) eqn:Ey; [| reflexivity].
      now rewrite (Hall y Hy Ey).
  - intros d ytt_list video_id r El Hr Ha.
    destruct (found_inv lower _ _ _ _ Hr Ha) as (c & t & sn & El' & Es & _ & ->).
    assert (c = catalog) as -> by congruence.
    exists t. repeat split; [exact Es | reflexivity ..].
Qed.

(** C2. A transcript is classified as Japanese exactly when its language
    code is the string "ja", or its lower-cased language name contains
    "japanese", or its language name contains U+65E5 U+672C U+8A9E; and the
    Japanese candidates the function collects are the transcripts of the
    catalog classified so. *)
Theorem C2_japanese_candidate_rule (t : Transcript) :
  (is_japanese t = true <->
   language_code t = lit "ja" \/
   (exists pre post, lower (language t) = pre ++ lit "japanese" ++ post) \/
   (exists pre post, language t = pre ++ nihongo ++ post)) /\
  (forall catalog,
     In (entry_of t) (snd (collect catalog)) <->
     In t catalog /\ is_japanese t = true).
Proof.
  split.
  - unfold is_japanese.
    rewrite !orb_true_iff, str_eqb_eq, !contains_spec. tauto.
  - intros catalog. rewrite collect_spec. simpl snd.
    rewrite in_map_iff. split.
    + intros (x & Ex & Hx). apply (f_equal entry_transcript) in Ex.
      simpl in Ex. subst x. now apply filter_In in Hx.
    + intros H. exists t. split; [reflexivity | now apply filter_In].
Qed.

(** C3. The Normalizer visits the snippets in order, drops a snippet exactly
    when its trimmed text is empty or both starts with "[" and ends with
    "]", and emits the segment of every other snippet, with no reordering,
    merging or deduplication.  A snippet whose trimmed text is "[music]", or
    whose text is whitespace only, is dropped; one whose trimmed text is
    "[partial] hello" is retained. *)
Theorem C3_normalizer_drop_rule :
  (forall snippets, Normalized snippets (normalize snippets)) /\
  (forall pre sn post,
     strip (snippet_text sn) = lit "[music]" ->
     normalize (pre ++ sn :: post) = normalize pre ++ normalize post) /\
  (forall pre sn post,
     forallb isspace (snippet_text sn) = true ->
     normalize (pre ++ sn :: post) = normalize pre ++ normalize post) /\
  (forall pre sn post,
     strip (snippet_text sn) = lit "[partial] hello" ->
     normalize (pre ++ sn :: post) =
     normalize pre ++ segment_of sn :: normalize post).
Proof.
  split; [exact Normalized_normalize |].
  repeat split; intros pre sn post H;
    rewrite normalize_app, normalize_cons; do 2 f_equal.
  - unfold normalize_step. now rewrite H.
  - apply strip_nil in H. unfold normalize_step. now rewrite H.
  - unfold normalize_step, segment_of. now rewrite H.
Qed.

(** C4. A snippet whose trimmed text is neither empty nor bracket-wrapped
    gives, at its place in the sequence, one segment whose start and
    duration are the snippet's, whose end is start + duration, and whose
    text is the snippet's text trimmed. *)
Theorem C4_segment_of_retained_snippet (sn : Snippet) pre post :
  strip (snippet_text sn) <> [] ->
  ~ bracketed (strip (snippet_text sn)) ->
  normalize (pre ++ sn :: post) =
  normalize pre ++
  {| seg_start := snippet_start sn;
     seg_duration := snippet_duration sn;
     seg_end := (snippet_start sn + snippet_duration sn)%float;
     seg_text := strip (snippet_text sn) |} :: normalize post.
Proof.
  intros Hne Hb. rewrite normalize_app, normalize_cons.
  rewrite normalize_step_keep; [reflexivity |].
  unfold dropped. tauto.
Qed.

(** C5. In a Found result [totalSegments] is the length of [segments], and
    [totalDuration] is the [end] of the last segment, or the integer 0 when
    there is none.  When the selected transcript consists of one retained
    snippet with start 1.0 and duration 2.5, the result is Found with one
    segment and [totalDuration] 3.5. *)
Theorem C5_total_segments_and_duration d ytt_list video_id :
  (forall r,
     fetch_japanese_transcript lower d ytt_list video_id = Return r ->
     r !! "available" = Some (VBool true) ->
     exists segments,
       r !! "segments" = Some (VSegments segments) /\
       r !! "totalSegments" = Some (VInt (Z.of_nat (length segments))) /\
       r !! "totalDuration" =
         Some (match last segments with
               | Some s => VFloat (seg_end s)
               | None => VInt 0
               end)) /\
  (forall catalog selected sn,
     ytt_list video_id = Return catalog ->
     selector catalog = Some selected ->
     fetch selected = Return [sn] ->
     ~ dropped sn ->
     snippet_start sn = 1.0%float ->
     snippet_duration sn = 2.5%float ->
     exists r,
       fetch_japanese_transcript lower d ytt_list video_id = Return r /\
       r !! "available" = Some (VBool true) /\
       r !! "totalSegments" = Some (VInt 1) /\
       r !! "totalDuration" = Some (VFloat 3.5)).
Proof.
  split.
  - intros r Hr Ha.
    destruct (found_inv lower _ _ _ _ Hr Ha) as (c & t & sn & _ & _ & _ & ->).
    exists (normalize sn). repeat split.
  - intros catalog t sn El Es Ef Hk Hs Hd.
    eexists. split; [exact (fetch_found lower d _ _ _ _ _ El Es Ef) |].
    rewrite (normalize_cons sn []), (normalize_step_keep _ _ Hk).
    change (normalize []) with (@nil Segment).
    repeat split. unfold found_result, total_duration, segment_of; simpl last.
    rewrite Hs, Hd. reflexivity.
Qed.

(** C6. When the catalog is retrieved and none of its transcripts is
    Japanese, the function returns a result with [available] false, the
    message "No Japanese transcripts available for this video", and
    [availableLanguages] holding one label "language (code)" per transcript
    of the catalog, in catalog order. *)
Theorem C6_no_japanese_candidate d ytt_list video_id catalog :
  ytt_list video_id = Return catalog ->
  (forall t, In t catalog -> is_japanese t = false) ->
  exists r,
    fetch_japanese_transcript lower d ytt_list video_id = Return r /\
    r !! "available" = Some (VBool false) /\
    r !! "videoId" = Some (VStr video_id) /\
    r !! "message" =
      Some (VStr (lit "No Japanese transcripts available for this video")) /\
    r !! "availableLanguages" =
      Some (VStrList
              (map (fun t => language t ++ lit " (" ++ language_code t ++ lit ")")
                   catalog)).
Proof.
  intros El Hno. eexists. split.
  - apply fetch_no_japanese; [exact El |]. rewrite selector_spec.
    rewrite (find_all_false manual_japanese), (find_all_false is_japanese);
      [reflexivity | exact Hno |].
    intros y Hy. unfold manual_japanese. now rewrite (Hno y Hy).
  - repeat split. unfold no_japanese_result. rewrite map_map. reflexivity.
Qed.

(** C7, as amended. When an exception is raised, by the catalog lookup or by
    the fetch of the selected transcript after the catalog was retrieved,
    the function returns a result with [available] false and without the
    key [availableLanguages]; for [NoTranscriptFound] its message is
    "No transcript found: " followed by the text of the exception. *)
Theorem C7_exception_results_have_no_languages d ytt_list video_id e :
  ytt_list video_id = Raise e \/
  (exists catalog selected,
     ytt_list video_id = Return catalog /\
     selector catalog = Some selected /\
     fetch selected = Raise e) ->
  exists r,
    fetch_japanese_transcript lower d ytt_list video_id = Return r /\
    r !! "available" = Some (VBool false) /\
    r !! "availableLanguages" = None /\
    (forall msg, e = NoTranscriptFound msg ->
       r !! "message" = Some (VStr (lit "No transcript found: " ++ msg))).
Proof.
  intros He. eexists. split; [exact (fetch_raised lower d _ _ _ He) |].
  split; [apply handler_available |].
  split; [apply handler_no_languages |].
  now intros msg ->.
Qed.

(** C8. When the catalog lookup raises [TranscriptsDisabled], the function
    returns a result with [available] false, the message
    "Transcripts are disabled for this video" and no key
    [availableLanguages].  Whatever the catalog lookup and the fetch do, the
    function returns a result and raises nothing. *)
Theorem C8_disabled_result_and_no_uncaught_exception d ytt_list video_id :
  (forall msg,
     ytt_list video_id = Raise (TranscriptsDisabled msg) ->
     exists r,
       fetch_japanese_transcript lower d ytt_list video_id = Return r /\
       r !! "available" = Some (VBool false) /\
       r !! "videoId" = Some (VStr video_id) /\
       r !! "message" =
         Some (VStr (lit "Transcripts are disabled for this video")) /\
       r !! "availableLanguages" = None) /\
  (exists r,
     fetch_japanese_transcript lower d ytt_list video_id = Return r /\
     exists b, r !! "available" = Some (VBool b)) /\
  (forall e, fetch_japanese_transcript lower d ytt_list video_id <> Raise e).
Proof.
  destruct (fetch_japanese_transcript_runs lower d ytt_list video_id) as (r & E & H).
  split; [| split].
  - intros msg El. eexists. split.
    + apply (fetch_raised lower d _ _ (TranscriptsDisabled msg)). now left.
    + repeat split.
  - exists r. split; [exact E |].
    destruct H; eexists;
      [apply no_japanese_available | apply found_available
      | apply handler_available | apply handler_available].
  - intros e. rewrite E. discriminate.
Qed.

(** C9. When the start and the duration of every snippet are at least zero,
    every segment the Normalizer emits has [start <= end], a text that is
    not empty and a text that is not bracket-wrapped; so has every segment
    of a Found result, when this holds of the snippets of the catalog's
    transcripts. *)
Theorem C9_segment_invariant :
  (forall snippets seg,
     (forall sn, In sn snippets ->
        (0 <=? snippet_start sn)%float = true /\
        (0 <=? snippet_duration sn)%float = true) ->
     In seg (normalize snippets) ->
     (seg_start seg <=? seg_end seg)%float = true /\
     seg_text seg <> [] /\
     ~ bracketed (seg_text seg)) /\
  (forall d ytt_list video_id r,
     (forall catalog t snippets sn,
        ytt_list video_id = Return catalog -> In t catalog ->
        fetch t = Return snippets -> In sn snippets ->
        (0 <=? snippet_start sn)%float = true /\
        (0 <=? snippet_duration sn)%float = true) ->
     fetch_japanese_transcript lower d ytt_list video_id = Return r ->
     r !! "available" = Some (VBool true) ->
     exists segments,
       r !! "segments" = Some (VSegments segments) /\
       forall seg, In seg segments ->
         (seg_start seg <=? seg_end seg)%float = true /\
         seg_text seg <> [] /\
         ~ bracketed (seg_text seg)).
Proof.
  assert (Hnorm : forall snippets seg,
     (forall sn, In sn snippets ->
        (0 <=? snippet_start sn)%float = true /\
        (0 <=? snippet_duration sn)%float = true) ->
     In seg (normalize snippets) ->
     (seg_start seg <=? seg_end seg)%float = true /\
     seg_text seg <> [] /\
     ~ bracketed (seg_text seg)).
  { intros snippets seg Hpos Hin.
    destruct (In_normalize _ _ Hin) as (sn & Hsn & Hk & ->).
    destruct (Hpos sn Hsn) as [Hs Hd]. unfold dropped in Hk. simpl.
    split; [now apply float_add_nonneg_ge | tauto]. }
  split; [exact Hnorm |].
  intros d ytt_list video_id r Hpos Hr Ha.
  destruct (found_inv lower _ _ _ _ Hr Ha) as (c & t & sn & El & Es & Ef & ->).
  exists (normalize sn). split; [reflexivity |].
  intros seg. apply Hnorm. intros x Hx.
  exact (Hpos c t sn x El (selector_In lower _ _ Es) Ef Hx).
Qed.

(** C10. Every Found result has a key [title], whose value is "Video "
    followed by the video id. *)
Theorem C10_found_result_has_title d ytt_list video_id r :
  fetch_japanese_transcript lower d ytt_list video_id = Return r ->
  r !! "available" = Some (VBool true) ->
  r !! "title" = Some (VStr (lit "Video " ++ video_id)).
Proof.
  intros Hr Ha.
  destruct (found_inv lower _ _ _ _ Hr Ha) as (c & t & sn & _ & _ & _ & ->).
  reflexivity.
Qed.

End Claims.

(** ** The claims on the sample inputs *)

Lemma not_dropped_by_test (sn : Snippet) :
  truthy (strip (snippet_text sn)) &&
  negb (startswith (strip (snippet_text sn)) (lit "[") &&
        endswith (strip (snippet_text sn)) (lit "]")) = true ->
  ~ dropped sn.
Proof.
  intros H Hd. unfold dropped in Hd. apply (proj2 (keep_test_false _)) in Hd.
  rewrite Hd in H. discriminate H.
Qed.

Lemma C1_witness :
  selector ascii_lower [ja_auto; english; ja_manual; ja_single] = Some ja_manual /\
  selector ascii_lower [english; ja_auto; nihongo_auto] = Some ja_auto.
Proof.
  split.
  - apply (proj1 (C1_selector_first_manual_else_first_japanese ascii_lower _)
             [ja_auto; english] ja_manual [ja_single]); try reflexivity.
    intros t [<- | [<- | []]] H; [reflexivity | vm_compute in H; discriminate H].
  - apply (proj1 (proj2 (C1_selector_first_manual_else_first_japanese
                           ascii_lower _))
             [english] ja_auto [nihongo_auto]); try reflexivity.
    + intros t [<- | []]. reflexivity.
    + intros t [<- | [<- | [<- | []]]] H; try reflexivity.
      vm_compute in H; discriminate H.
Defined.

Lemma C2_witness :
  is_japanese ascii_lower ja_single = true /\
  is_japanese ascii_lower nihongo_auto = true /\
  is_japanese ascii_lower ja_manual = true.
Proof.
  split; [| split].
  - apply (proj2 (proj1 (C2_japanese_candidate_rule ascii_lower ja_single))).
    right; left. exists [], []. reflexivity.
  - apply (proj2 (proj1 (C2_japanese_candidate_rule ascii_lower nihongo_auto))).
    right; right. exists [], []. reflexivity.
  - apply (proj2 (proj1 (C2_japanese_candidate_rule ascii_lower ja_manual))).
    left. reflexivity.
Defined.

Example upper_code_is_not_japanese :
  is_japanese ascii_lower upper_code = false /\
  is_japanese ascii_lower english = false.
Proof. split; reflexivity. Qed.

Lemma C3_witness :
  Normalized [music; blank; partial] (normalize [music; blank; partial]) /\
  normalize [music; blank; partial] = [segment_of partial].
Proof.
  destruct C3_normalizer_drop_rule as (Hn & Hm & Hb & Hp).
  split; [apply Hn |].
  rewrite (Hm [] music [blank; partial] eq_refl
           : normalize [music; blank; partial] = [] ++ normalize [blank; partial]).
  rewrite (Hb [] blank [partial] eq_refl
           : normalize [blank; partial] = [] ++ normalize [partial]).
  exact (Hp [] partial [] eq_refl).
Defined.

Lemma C4_witness :
  normalize ([music] ++ partial :: [blank]) =
  normalize [music] ++
  {| seg_start := 2%float; seg_duration := 3.25%float;
     seg_end := 5.25%float; seg_text := lit "[partial] hello" |}
  :: normalize [blank].
Proof.
  apply (C4_segment_of_retained_snippet partial [music] [blank]).
  - discriminate.
  - intros H. apply (not_dropped_by_test partial); [reflexivity |].
    right. exact H.
Defined.

Lemma C5_witness :
  exists r,
    fetch_japanese_transcript ascii_lower Script
      (always (Return [english; ja_single])) video = Return r /\
    r !! "available" = Some (VBool true) /\
    r !! "totalSegments" = Some (VInt 1) /\
    r !! "totalDuration" = Some (VFloat 3.5).
Proof.
  apply (proj2 (C5_total_segments_and_duration ascii_lower Script
                  (always (Return [english; ja_single])) video)
           [english; ja_single] ja_single
           {| snippet_start := 1.0%float; snippet_duration := 2.5%float;
              snippet_text := lit "  hello " |});
    try reflexivity.
  apply not_dropped_by_test. reflexivity.
Defined.

Lemma C6_witness :
  exists r,
    fetch_japanese_transcript ascii_lower CloudFunction
      (always (Return [english])) video = Return r /\
    r !! "available" = Some (VBool false) /\
    r !! "videoId" = Some (VStr video) /\
    r !! "message" =
      Some (VStr (lit "No Japanese transcripts available for this video")) /\
    r !! "availableLanguages" = Some (VStrList [lit "English (en)"]).
Proof.
  apply (C6_no_japanese_candidate ascii_lower CloudFunction
           (always (Return [english])) video [english]); [reflexivity |].
  intros t [<- | []]. reflexivity.
Defined.

Lemma C7_witness :
  exists r,
    fetch_japanese_transcript ascii_lower CloudFunction
      (always (Return [english; ja_unfetchable])) video = Return r /\
    r !! "available" = Some (VBool false) /\
    r !! "availableLanguages" = None /\
    (forall msg, NoTranscriptFound (lit "no data") = NoTranscriptFound msg ->
       r !! "message" = Some (VStr (lit "No transcript found: " ++ msg))).
Proof.
  apply (C7_exception_results_have_no_languages ascii_lower CloudFunction
           (always (Return [english; ja_unfetchable])) video
           (NoTranscriptFound (lit "no data"))).
  right. exists [english; ja_unfetchable], ja_unfetchable.
  repeat split.
Defined.

(** C7, as stated, fails: the catalog is retrieved, the fetch of the selected
    transcript raises [NoTranscriptFound], and the result has no key
    [availableLanguages], in neither copy of the function. *)
Lemma C7_counterexample :
  always (Return [english; ja_unfetchable]) video
    = Return [english; ja_unfetchable] /\
  selector ascii_lower [english; ja_unfetchable] = Some ja_unfetchable /\
  fetch ja_unfetchable = Raise (NoTranscriptFound (lit "no data")) /\
  forall d, exists r,
    fetch_japanese_transcript ascii_lower d
      (always (Return [english; ja_unfetchable])) video = Return r /\
    r !! "available" = Some (VBool false) /\
    r !! "message" = Some (VStr (lit "No transcript found: no data")) /\
    r !! "availableLanguages" = None /\
    r !! "availableLanguages" <>
      Some (VStrList [lit "English (en)"; lit "Japanese (ja)"]).
Proof.
  repeat split.
  intros d.
  exists (no_transcript_result d video (NoTranscriptFound (lit "no data"))).
  split; [now destruct d |].
  split; [reflexivity |]. split; [reflexivity |].
  split; [reflexivity | discriminate].
Qed.

Lemma C8_witness :
  exists r,
    fetch_japanese_transcript ascii_lower Script
      (always (Raise (TranscriptsDisabled (lit "subtitles are disabled"))))
      video = Return r /\
    r !! "available" = Some (VBool false) /\
    r !! "videoId" = Some (VStr video) /\
    r !! "message" = Some (VStr (lit "Transcripts are disabled for this video")) /\
    r !! "availableLanguages" = None.
Proof.
  apply (proj1 (C8_disabled_result_and_no_uncaught_exception ascii_lower Script
                  (always (Raise (TranscriptsDisabled
                                    (lit "subtitles are disabled"))))
                  video)
           (lit "subtitles are disabled")).
  reflexivity.
Defined.

Lemma C9_witness :
  (0 <=? 2)%float = true /\
  konnichiwa <> [] /\
  ~ bracketed konnichiwa.
Proof.
  apply (proj1 (C9_segment_invariant ascii_lower) sample_snippets
           {| seg_start := 0%float; seg_duration := 2%float;
              seg_end := 2%float; seg_text := konnichiwa |}).
  - intros sn [<- | [<- | []]]; split; reflexivity.
  - left. reflexivity.
Defined.

Lemma C10_witness :
  found_result CloudFunction video ja_manual
    (snd (collect ascii_lower [ja_auto; ja_manual]))
    (normalize sample_snippets) !! "title"
  = Some (VStr (lit "Video dQw4w9WgXcQ")).
Proof.
  apply (C10_found_result_has_title ascii_lower CloudFunction
           (always (Return [ja_auto; ja_manual])) video); reflexivity.
Defined.

(** The end-to-end scenario of the specification: a manual and an
    auto-generated Japanese track, two snippets of which the second is an
    annotation. *)
Example end_to_end_found :
  exists r,
    fetch_japanese_transcript ascii_lower CloudFunction
      (always (Return [ja_manual; ja_auto])) video = Return r /\
    r !! "languageCode" = Some (VStr (lit "ja")) /\
    r !! "isGenerated" = Some (VBool false) /\
    r !! "availableLanguages" =
      Some (VStrList [lit "Japanese (manual)";
                      lit "Japanese (auto-generated) (auto)"]) /\
    r !! "segments" =
      Some (VSegments [{| seg_start := 0%float; seg_duration := 2%float;
                          seg_end := 2%float; seg_text := konnichiwa |}]) /\
    r !! "totalSegments" = Some (VInt 1) /\
    r !! "totalDuration" = Some (VFloat 2).
Proof.
  exists (found_result CloudFunction video ja_manual
            (snd (collect ascii_lower [ja_manual; ja_auto]))
            (normalize sample_snippets)).
  repeat split.
Qed.

(** * Further properties *)

(** ** Of the function *)

Section Further.

Variable lower : str -> str.

Local Abbreviation is_japanese := (is_japanese lower).
Local Abbreviation selector := (selector lower).
Local Abbreviation fetch_japanese_transcript :=
  (fetch_japanese_transcript lower).


Lemma selector_sound (catalog : list Transcript) :
  (selector catalog = None <->
   forall t, In t catalog -> is_japanese t = false) /\
  (forall selected,
     selector catalog = Some selected ->
     In selected catalog /\
     is_japanese selected = true /\
     (is_generated selected = true ->
      forall t, In t catalog -> is_japanese t = true ->
                is_generated t = true)).
Proof.
  rewrite selector_spec. split.
  - split.
    + destruct (List.find (manual_japanese lower) catalog) eqn:E;
        [discriminate |].
      intros H t Ht. exact (find_none _ _ H t Ht).
    + intros H.
      rewrite (find_all_false (manual_japanese lower)), (find_all_false is_japanese);
        [reflexivity | exact H |].
      intros y Hy. unfold manual_japanese. now rewrite (H y Hy).
  - intros t. destruct (List.find (manual_japanese lower) catalog) as [m |] eqn:E.
    + intros [= ->]. apply find_some in E as [Hin Hm].
      unfold manual_japanese in Hm. apply andb_true_iff in Hm as [Hj Hg].
      repeat split; try assumption.
      intros Hgen. rewrite Hgen in Hg. discriminate.
    + intros H. apply find_some in H as [Hin Hj].
      repeat split; try assumption.
      intros _ u Hu Huj. pose proof (find_none _ _ E u Hu) as Hn.
      unfold manual_japanese in Hn. rewrite Huj in Hn.
      now destruct (is_generated u).
Qed.

(** X2. The Selector finds nothing exactly when no transcript of the catalog
    is Japanese.  What it selects is a Japanese transcript of the catalog,
    and an auto-generated one only when every Japanese transcript of the
    catalog is auto-generated. *)
Theorem X2_selector_sound (catalog : list Transcript) :
  (selector catalog = None <->
   forall t, In t catalog -> is_japanese t = false) /\
  (forall selected,
     selector catalog = Some selected ->
     In selected catalog /\
     is_japanese selected = true /\
     (is_generated selected = true ->
      forall t, In t catalog -> is_japanese t = true ->
                is_generated t = true)).
Proof. exact (selector_sound catalog). Qed.

(** X3. In a Found result [availableLanguages] holds one label per Japanese
    transcript of the catalog, in catalog order, the name followed by
    " (auto)" or " (manual)"; the label of the selected transcript is among
    them, and [isJapanese] is true. *)
Theorem X3_found_languages d ytt_list video_id r :
  fetch_japanese_transcript d ytt_list video_id = Return r ->
  r !! "available" = Some (VBool true) ->
  exists catalog selected,
    ytt_list video_id = Return catalog /\
    selector catalog = Some selected /\
    r !! "availableLanguages" =
      Some (VStrList (map track_label (List.filter is_japanese catalog))) /\
    In (track_label selected)
       (map track_label (List.filter is_japanese catalog)) /\
    r !! "isJapanese" = Some (VBool true).
Proof.
  intros Hr Ha.
  destruct (found_inv lower _ _ _ _ Hr Ha) as (c & t & sn & El & Es & Ef & ->).
  exists c, t. repeat split; try assumption.
  - rewrite collect_spec. simpl snd. unfold found_result.
    rewrite map_map. reflexivity.
  - apply in_map. apply filter_In.
    destruct (proj2 (selector_sound c) t Es) as (Hin & Hj & _). auto.
Qed.

(** The result of a run, key by key. *)
Lemma run_keys d ytt_list video_id r :
  run lower d ytt_list video_id r ->
  r !! "videoId" = Some (VStr video_id) /\
  r !! "source" = Some (VStr (source_tag d)) /\
  exists b,
    r !! "available" = Some (VBool b) /\
    (b = false <-> is_Some (r !! "message")) /\
    (b = true <-> is_Some (r !! "segments")).
Proof.
  intros [c ? ? | c t sn ? ? ? | e ? | c t e ? ? ?];
    [| | destruct e, d ..];
    (split; [reflexivity |]; split; [reflexivity |];
     eexists; split; [reflexivity |];
     split; split; intros Hk;
     first [ reflexivity | discriminate Hk | (eexists; reflexivity)
           | exact (False_ind _ (is_Some_None Hk)) ]).
Qed.

(** X4. Every result carries the video id it was asked for, the [source]
    tag of its copy of the function and a boolean [available]; it has a
    [message] exactly when [available] is false and [segments] exactly when
    [available] is true. *)
Theorem X4_result_shape d ytt_list video_id r :
  fetch_japanese_transcript d ytt_list video_id = Return r ->
  r !! "videoId" = Some (VStr video_id) /\
  r !! "source" = Some (VStr (source_tag d)) /\
  exists b,
    r !! "available" = Some (VBool b) /\
    (b = false <-> is_Some (r !! "message")) /\
    (b = true <-> is_Some (r !! "segments")).
Proof.
  intros Hr. apply (run_keys d ytt_list). now apply fetch_japanese_transcript_inv.
Qed.




Lemma same_track_is_japanese t1 t2 :
  same_track t1 t2 -> is_japanese t1 = is_japanese t2.
Proof. intros (Hl & Hc & _). unfold is_japanese. now rewrite Hl, Hc. Qed.

(** Searching two lists that are related element by element, with tests
    that agree on related elements, stops at the same place. *)
Lemma Forall2_find {A} (R : A -> A -> Prop) (f g : A -> bool) l1 l2 :
  Forall2 R l1 l2 ->
  (forall x y, R x y -> f x = g y) ->
  match List.find f l1, List.find g l2 with
  | Some x, Some y => R x y
  | None, None => True
  | _, _ => False
  end.
Proof.
  intros H Hfg. induction H as [| x y l1 l2 Hxy _ IH]; simpl; [exact I |].
  rewrite <- (Hfg x y Hxy). now destruct (f x).
Qed.

Lemma same_track_selector c1 c2 :
  Forall2 same_track c1 c2 ->
  match selector c1, selector c2 with
  | Some s1, Some s2 => same_track s1 s2
  | None, None => True
  | _, _ => False
  end.
Proof.
  intros H. rewrite !selector_spec.
  assert (Hag : forall x y, same_track x y ->
                  manual_japanese lower x = manual_japanese lower y).
  { intros x y Hxy. unfold manual_japanese.
    rewrite (same_track_is_japanese x y Hxy).
    destruct Hxy as (_ & _ & ->). reflexivity. }
  pose proof (Forall2_find same_track _ _ c1 c2 H Hag) as Hm.
  pose proof (Forall2_find same_track is_japanese is_japanese c1 c2 H
                same_track_is_japanese) as Hj.
  destruct (List.find (manual_japanese lower) c1),
           (List.find (manual_japanese lower) c2);
    first [exact Hm | contradiction | exact Hj].
Qed.

Lemma same_track_labels c1 c2 :
  Forall2 same_track c1 c2 ->
  map catalog_label (map transcript_info_of c1) =
  map catalog_label (map transcript_info_of c2) /\
  map japanese_label (snd (collect lower c1)) =
  map japanese_label (snd (collect lower c2)).
Proof.
  intros H. rewrite !collect_spec. simpl snd.
  induction H as [| x y l1 l2 Hxy _ [IH1 IH2]]; [split; reflexivity |].
  pose proof (same_track_is_japanese x y Hxy) as Hj.
  destruct Hxy as (Hl & Hc & Hg). simpl. rewrite <- Hj. split.
  - f_equal; [| exact IH1]. unfold catalog_label; simpl. now rewrite Hl, Hc.
  - destruct (is_japanese x); simpl; [| exact IH2].
    f_equal; [| exact IH2]. unfold japanese_label; simpl. now rewrite Hl, Hg.
Qed.

(** X7. The result depends on the catalog through the names, codes and
    generated flags of its transcripts and through the fetch of the selected
    transcript only: the flag [is_translatable] and the fetch of every other
    transcript have no part in it. *)
Theorem X7_only_selected_is_fetched d ytt_list1 ytt_list2 video_id c1 c2 :
  ytt_list1 video_id = Return c1 ->
  ytt_list2 video_id = Return c2 ->
  Forall2 same_track c1 c2 ->
  (forall s1 s2, selector c1 = Some s1 -> selector c2 = Some s2 ->
                 fetch s1 = fetch s2) ->
  fetch_japanese_transcript d ytt_list1 video_id =
  fetch_japanese_transcript d ytt_list2 video_id.
Proof.
  intros E1 E2 H Hf.
  pose proof (same_track_selector c1 c2 H) as Hs.
  destruct (same_track_labels c1 c2 H) as [Hc Hj].
  destruct (selector c1) as [s1 |] eqn:S1, (selector c2) as [s2 |] eqn:S2;
    try contradiction.
  - specialize (Hf s1 s2 eq_refl eq_refl). destruct Hs as (Hl & Hco & Hg).
    destruct (fetch s1) as [sn | e] eqn:F1.
    + rewrite (fetch_found lower d _ _ _ _ _ E1 S1 F1).
      rewrite (fetch_found lower d _ _ _ _ _ E2 S2 (eq_sym Hf)).
      unfold found_result. now rewrite Hl, Hco, Hg, Hj.
    + rewrite (fetch_raised lower d ytt_list1 video_id e)
        by (right; exists c1, s1; auto).
      rewrite (fetch_raised lower d ytt_list2 video_id e)
        by (right; exists c2, s2; auto).
      reflexivity.
  - rewrite (fetch_no_japanese lower d _ _ _ E1 S1).
    rewrite (fetch_no_japanese lower d _ _ _ E2 S2).
    unfold no_japanese_result. now rewrite Hc.
Qed.

Lemma find_ext {A} (f g : A -> bool) (l : list A) :
  (forall x, f x = g x) -> List.find f l = List.find g l.
Proof.
  intros H. induction l as [| x l IH]; simpl; [reflexivity |].
  now rewrite H, IH.
Qed.

(** X18. The transcripts that are not Japanese have no part in the
    selection: the Selector chooses from a catalog what it chooses from the
    Japanese transcripts of that catalog alone. *)
Theorem X18_selector_ignores_other_languages (catalog : list Transcript) :
  selector catalog = selector (List.filter is_japanese catalog).
Proof.
  rewrite !selector_spec, !find_filter.
  rewrite (find_ext (fun x => is_japanese x && manual_japanese lower x)
                    (manual_japanese lower)).
  - rewrite (find_ext (fun x => is_japanese x && is_japanese x) is_japanese);
      [reflexivity |].
    intros x. now destruct (is_japanese x).
  - intros x. unfold manual_japanese. now destruct (is_japanese x).
Qed.



End Further.

(** ** Of the second loop *)

Lemma lstrip_fix (s : str) :
  match s with [] => True | c :: _ => isspace c = false end -> lstrip s = s.
Proof. destruct s as [| c s]; simpl; [reflexivity | now intros ->]. Qed.

Lemma strip_idem (s : str) : strip (strip s) = strip s.
Proof.
  destruct (strip_trims s) as (l & r & _ & _ & _ & Hh & Ht).
  unfold strip at 1, rstrip.
  rewrite (lstrip_fix (strip s) Hh), (lstrip_fix (rev (strip s)) Ht).
  apply rev_involutive.
Qed.

Lemma bracketed_iff (text : str) :
  bracketed text <-> exists mid, text = lit "[" ++ mid ++ lit "]".
Proof.
  unfold bracketed. split.
  - intros [[t Ht] [t' Ht']]. destruct t' as [| c mid].
    + rewrite Ht' in Ht. discriminate Ht.
    + exists mid. rewrite Ht' in Ht. injection Ht as -> _. exact Ht'.
  - intros [mid ->]. split.
    + exists (mid ++ lit "]"). reflexivity.
    + exists (lit "[" ++ mid). now rewrite <- app_assoc.
Qed.

Lemma normalize_step_cases sn :
  (dropped sn /\ normalize_step [] sn = []) \/
  (~ dropped sn /\ normalize_step [] sn = [segment_of sn]).
Proof.
  destruct (dropped_dec sn) as [H | H]; [left | right]; split; try assumption.
  - now apply normalize_step_drop.
  - now apply normalize_step_keep.
Qed.

(** X8. The text of every emitted segment is the text of a snippet of the
    input without a leading and a trailing run of whitespace, and it neither
    starts nor ends with a whitespace character. *)
Theorem X8_segment_text_is_trimmed (snippets : list Snippet) seg :
  In seg (normalize snippets) ->
  exists sn l r,
    In sn snippets /\
    snippet_text sn = l ++ seg_text seg ++ r /\
    forallb isspace l = true /\ forallb isspace r = true /\
    (exists c rest, seg_text seg = c :: rest /\ isspace c = false) /\
    (exists c rest, seg_text seg = rest ++ [c] /\ isspace c = false).
Proof.
  intros Hin. destruct (In_normalize _ _ Hin) as (sn & Hsn & Hk & ->).
  destruct (strip_trims (snippet_text sn)) as (l & r & Hs & Hl & Hr & Hh & Ht).
  exists sn, l, r. simpl seg_text. repeat split; try assumption.
  - destruct (strip (snippet_text sn)) as [| c rest] eqn:E.
    + exfalso. apply Hk. left. exact E.
    + eauto.
  - destruct (rev (strip (snippet_text sn))) as [| c rest] eqn:E.
    + exfalso. apply Hk. left.
      rewrite <- (rev_involutive (strip _)), E. reflexivity.
    + exists c, (rev rest). split; [| exact Ht].
      rewrite <- (rev_involutive (strip _)), E. reflexivity.
Qed.

(** X9. Normalising is idempotent: the segments of an output, read back as
    snippets, are normalised to themselves. *)
Theorem X9_normalize_idempotent (snippets : list Snippet) :
  normalize (map snippet_of (normalize snippets)) = normalize snippets.
Proof.
  assert (Hfix : forall segs,
            (forall seg, In seg segs -> exists sn, ~ dropped sn /\
                                                   seg = segment_of sn) ->
            normalize (map snippet_of segs) = segs).
  { induction segs as [| seg segs IH]; intros H; [reflexivity |].
    simpl map. rewrite normalize_cons, IH by (intros; apply H; now right).
    destruct (H seg (or_introl eq_refl)) as (sn & Hk & ->).
    rewrite normalize_step_keep.
    - unfold segment_of, snippet_of; simpl. now rewrite strip_idem.
    - unfold dropped, snippet_of, segment_of; simpl. now rewrite strip_idem. }
  apply Hfix. intros seg Hin.
  destruct (In_normalize _ _ Hin) as (sn & _ & Hk & ->). eauto.
Qed.

(** X10. A snippet is dropped exactly when its trimmed text is empty or is
    "[" and "]" around anything at all.  So a text with speech between two
    annotations is dropped whole, and a text of one character is kept. *)
Theorem X10_bracket_rule (sn : Snippet) :
  (dropped sn <->
   strip (snippet_text sn) = [] \/
   exists mid, strip (snippet_text sn) = lit "[" ++ mid ++ lit "]") /\
  (forall a speech b,
     strip (snippet_text sn) =
       lit "[" ++ a ++ lit "]" ++ speech ++ lit "[" ++ b ++ lit "]" ->
     normalize [sn] = []) /\
  (forall c, strip (snippet_text sn) = [c] -> normalize [sn] = [segment_of sn]).
Proof.
  assert (Hd : dropped sn <->
               strip (snippet_text sn) = [] \/
               exists mid, strip (snippet_text sn) = lit "[" ++ mid ++ lit "]").
  { unfold dropped. now rewrite bracketed_iff. }
  split; [exact Hd | split].
  - intros a speech b H. rewrite (normalize_cons sn []).
    rewrite normalize_step_drop; [reflexivity |].
    apply Hd. right. exists (a ++ lit "]" ++ speech ++ lit "[" ++ b).
    rewrite H. now rewrite <- !app_assoc.
  - intros c H. rewrite (normalize_cons sn []).
    rewrite normalize_step_keep; [reflexivity |].
    rewrite Hd, H. intros [? | [mid Hm]]; [discriminate |].
    destruct mid; discriminate Hm.
Qed.

(** X11. The Normalizer emits at most one segment per snippet, and as many
    segments as snippets exactly when it drops none. *)
Theorem X11_segment_count (snippets : list Snippet) :
  (length (normalize snippets) <= length snippets)%nat /\
  (length (normalize snippets) = length snippets <->
   forall sn, In sn snippets -> ~ dropped sn).
Proof.
  induction snippets as [| sn l [IHle IHeq]].
  { split; [reflexivity |]. split; [intros _ sn [] | reflexivity]. }
  rewrite normalize_cons, length_app. simpl length.
  destruct (normalize_step_cases sn) as [[Hd ->] | [Hk ->]]; simpl length.
  - split; [lia |]. split; [lia |]. intros H. exfalso.
    exact (H sn (or_introl eq_refl) Hd).
  - split; [lia |]. split.
    + intros E sn' [<- | Hin]; [exact Hk |]. apply IHeq; [lia | exact Hin].
    + intros H. f_equal. apply IHeq. intros; apply H; now right.
Qed.

(** ** Of the callers *)

Section CallerFacts.

Variable lower : str -> str.
Variable ytt_list : str -> outcome (list Transcript).
Variable fetch_other : json -> outcome (gmap string value).
Variable in_error : json -> str.
Variable getitem_error : json -> str.

Local Abbreviation handler :=
  (get_japanese_transcript lower ytt_list fetch_other in_error getitem_error).
Local Abbreviation read_video_id := (read_video_id in_error getitem_error).
Local Abbreviation call_fetch := (call_fetch lower ytt_list fetch_other).

Lemma str_eqb_false (a b : str) : a <> b -> str_eqb a b = false.
Proof.
  intros H. destruct (str_eqb a b) eqn:E; [| reflexivity].
  apply str_eqb_eq in E. contradiction.
Qed.

(** The handler past the test for [OPTIONS], by what [video_id] is set to. *)
Lemma handler_after_read (request : Request) :
  method request <> lit "OPTIONS" ->
  handler request =
  Return match read_video_id request with
         | Raise e => server_error e
         | Return video_id =>
             if json_truthy video_id then
               match call_fetch video_id with
               | Return r => ok_response r
               | Raise e => server_error e
               end
             else bad_request
         end.
Proof.
  intros H. unfold get_japanese_transcript.
  rewrite (str_eqb_false _ _ H).
  destruct (read_video_id request) as [v | e]; [| reflexivity].
  simpl. destruct (json_truthy v); [| reflexivity].
  simpl. now destruct (call_fetch v).
Qed.

(** X12. The handler answers every request and raises nothing.  The status
    is 204, 200, 400 or 500, and 204 exactly for the method OPTIONS, with an
    empty body; every other answer has a JSON body and the content type
    application/json; every answer allows all origins. *)
Theorem X12_handler_answers (request : Request) :
  exists resp,
    handler request = Return resp /\
    (resp_status resp = 204 \/ resp_status resp = 200 \/
     resp_status resp = 400 \/ resp_status resp = 500)%Z /\
    (resp_status resp = 204%Z <-> method request = lit "OPTIONS") /\
    (resp_status resp = 204%Z -> resp_body resp = TextBody []) /\
    (resp_status resp <> 204%Z ->
       (exists d, resp_body resp = JsonBody d) /\
       resp_headers resp !! "Content-Type" = Some (lit "application/json")) /\
    resp_headers resp !! "Access-Control-Allow-Origin" = Some (lit "*").
Proof.
  destruct (str_eqb (method request) (lit "OPTIONS")) eqn:E.
  - unfold get_japanese_transcript. rewrite E. apply str_eqb_eq in E.
    eexists. split; [reflexivity |]. simpl.
    split; [now left |]. split; [tauto |]. split; [reflexivity |].
    split; [intros Hn; now contradiction Hn | reflexivity].
  - assert (Hm : method request <> lit "OPTIONS").
    { intros H. apply str_eqb_eq in H. congruence. }
    rewrite (handler_after_read request Hm).
    eexists. split; [reflexivity |].
    destruct (read_video_id request) as [v | e];
      [destruct (json_truthy v); [destruct (call_fetch v) |] |]; simpl;
      (split; [auto |]; split; [split; [discriminate | contradiction] |];
       split; [discriminate |]; split; [| reflexivity];
       intros _; split; [eexists; reflexivity | reflexivity]).
Qed.

Lemma read_get (request : Request) :
  method request = lit "GET" ->
  read_video_id request = Return (args_get request (lit "videoId")).
Proof. intros H. unfold read_video_id. now rewrite H. Qed.

Lemma read_post (request : Request) :
  method request = lit "POST" ->
  read_video_id request =
  (found ← (if json_truthy (get_json request)
            then json_in in_error (lit "videoId") (get_json request)
            else Return false);
   if (found : bool)
   then json_getitem getitem_error (get_json request) (lit "videoId")
   else Return JNull).
Proof. intros H. unfold read_video_id. now rewrite H. Qed.

Lemma call_fetch_str (s : str) :
  exists r,
    fetch_japanese_transcript lower CloudFunction ytt_list s = Return r /\
    call_fetch (JStr s) = Return r.
Proof.
  destruct (fetch_japanese_transcript_runs lower CloudFunction ytt_list s)
    as (r & E & _).
  exists r. split; [exact E | exact E].
Qed.

Lemma handler_str_id (request : Request) (s : str) :
  method request <> lit "OPTIONS" ->
  read_video_id request = Return (JStr s) ->
  s <> [] ->
  exists r,
    fetch_japanese_transcript lower CloudFunction ytt_list s = Return r /\
    handler request = Return (ok_response r).
Proof.
  intros Hm Hr Hs. rewrite (handler_after_read request Hm), Hr.
  destruct (call_fetch_str s) as (r & E & ->). exists r.
  split; [exact E |]. destruct s; [contradiction | reflexivity].
Qed.

Lemma handler_falsy_id (request : Request) (v : json) :
  method request <> lit "OPTIONS" ->
  read_video_id request = Return v ->
  json_truthy v = false ->
  handler request = Return bad_request.
Proof.
  intros Hm Hr Hv. now rewrite (handler_after_read request Hm), Hr, Hv.
Qed.

Lemma handler_read_raises (request : Request) (e : exn) :
  method request <> lit "OPTIONS" ->
  read_video_id request = Raise e ->
  handler request = Return (server_error e).
Proof.
  intros Hm Hr. now rewrite (handler_after_read request Hm), Hr.
Qed.

(** X13. A GET request with a non-empty [videoId] argument is answered 200
    with the result of the function for that id, Found or not; one without
    the argument, or with an empty one, is answered 400 with the body that
    asks for the id. *)
Theorem X13_get_request (request : Request) :
  method request = lit "GET" ->
  (forall s, args request !! lit "videoId" = Some s -> s <> [] ->
     exists r,
       fetch_japanese_transcript lower CloudFunction ytt_list s = Return r /\
       handler request = Return (ok_response r)) /\
  (args request !! lit "videoId" = None \/
   args request !! lit "videoId" = Some [] ->
   handler request = Return bad_request).
Proof.
  intros Hm.
  assert (Hno : method request <> lit "OPTIONS") by (rewrite Hm; discriminate).
  pose proof (read_get request Hm) as Hr. unfold args_get in Hr.
  unfold str in *. split.
  - intros s Hs Hne. rewrite Hs in Hr. now apply handler_str_id.
  - intros [Hn | Hn]; rewrite Hn in Hr;
      now apply (handler_falsy_id request _ Hno Hr).
Qed.

Lemma dict_with_key_truthy (m : gmap (list N) json) key v :
  m !! key = Some v -> json_truthy (JDict m) = true.
Proof.
  intros H. simpl. rewrite bool_decide_eq_false_2; [reflexivity |].
  intros ->. rewrite lookup_empty in H. discriminate.
Qed.

(** What a POST request sets [video_id] to, by the shape of its body. *)
Lemma read_post_dict (request : Request) m :
  method request = lit "POST" ->
  get_json request = JDict m ->
  read_video_id request =
  Return match m !! lit "videoId" with Some v => v | None => JNull end.
Proof.
  intros Hp Hj. rewrite (read_post request Hp), Hj.
  destruct (m !! lit "videoId") as [v |] eqn:E.
  - rewrite (dict_with_key_truthy m _ _ E).
    cbv [json_in json_getitem mbind outcome_bind].
    rewrite bool_decide_eq_true_2 by (rewrite E; eauto).
    now rewrite E.
  - destruct (json_truthy (JDict m)); [| reflexivity].
    cbv [json_in json_getitem mbind outcome_bind].
    now rewrite bool_decide_eq_false_2 by (rewrite E; intros [? [=]]).
Qed.

Lemma read_post_list (request : Request) l :
  method request = lit "POST" ->
  get_json request = JList l ->
  read_video_id request =
  if existsb is_video_id_key l
  then Raise (OtherException (lit "TypeError") (getitem_error (JList l)))
  else Return JNull.
Proof.
  intros Hp Hj. rewrite (read_post request Hp), Hj.
  destruct l as [| x l]; [reflexivity |].
  cbv [json_truthy truthy json_in json_getitem mbind outcome_bind].
  fold is_video_id_key. now destruct (existsb is_video_id_key (x :: l)).
Qed.

Lemma read_post_str (request : Request) s :
  method request = lit "POST" ->
  get_json request = JStr s ->
  read_video_id request =
  if contains s (lit "videoId")
  then Raise (OtherException (lit "TypeError") (getitem_error (JStr s)))
  else Return JNull.
Proof.
  intros Hp Hj. rewrite (read_post request Hp), Hj.
  destruct s as [| c s]; [reflexivity |].
  cbv [json_truthy truthy json_in json_getitem mbind outcome_bind].
  now destruct (contains (c :: s) (lit "videoId")).
Qed.

(** X14. A POST request whose JSON body is an object with a string under
    [videoId] is answered like the GET request with that string as its
    [videoId] argument. *)
Theorem X14_post_like_get (post get : Request) m s :
  method post = lit "POST" ->
  get_json post = JDict m ->
  m !! lit "videoId" = Some (JStr s) ->
  method get = lit "GET" ->
  args get !! lit "videoId" = Some s ->
  handler post = handler get.
Proof.
  intros Hp Hj Hk Hg Ha.
  assert (Hpo : method post <> lit "OPTIONS") by (rewrite Hp; discriminate).
  assert (Hgo : method get <> lit "OPTIONS") by (rewrite Hg; discriminate).
  rewrite (handler_after_read post Hpo), (handler_after_read get Hgo).
  rewrite (read_get get Hg), (read_post_dict post m Hp Hj), Hk.
  unfold args_get. rewrite Ha. reflexivity.
Qed.

Lemma existsb_video_id_key (l : list json) :
  existsb is_video_id_key l = true <-> In (JStr (lit "videoId")) l.
Proof.
  rewrite existsb_exists. split.
  - intros (x & Hin & Hx). destruct x; try discriminate Hx.
    apply str_eqb_eq in Hx. now rewrite Hx.
  - intros H. exists (JStr (lit "videoId")). split; [exact H | reflexivity].
Qed.

(** X15. A POST request whose JSON body is not an object is answered 500
    when the body is [true], a number other than zero, a list that holds the
    string "videoId", or a string that contains "videoId": the handler
    catches the [TypeError] of [in] or of the subscript. *)
Theorem X15_post_body_not_an_object (request : Request) :
  method request = lit "POST" ->
  ((get_json request = JBool true \/
    (exists n, get_json request = JInt n /\ n <> 0%Z) \/
    (exists f, get_json request = JFloat f /\ (f =? 0)%float = false)) ->
   handler request =
   Return (server_error (OtherException (lit "TypeError")
                           (in_error (get_json request))))) /\
  (((exists l, get_json request = JList l /\ In (JStr (lit "videoId")) l) \/
    (exists s, get_json request = JStr s /\
               contains s (lit "videoId") = true)) ->
   handler request =
   Return (server_error (OtherException (lit "TypeError")
                           (getitem_error (get_json request))))).
Proof.
  intros Hp.
  assert (Hno : method request <> lit "OPTIONS") by (rewrite Hp; discriminate).
  split.
  - intros H. apply (handler_read_raises request _ Hno).
    rewrite (read_post request Hp).
    destruct H as [-> | [(n & -> & Hn) | (f & -> & Hf)]];
      cbv [json_truthy json_in mbind outcome_bind].
    + reflexivity.
    + apply Z.eqb_neq in Hn. now rewrite Hn.
    + now rewrite Hf.
  - intros H. apply (handler_read_raises request _ Hno).
    destruct H as [(l & Hj & Hl) | (s & Hj & Hs)].
    + rewrite (read_post_list request l Hp Hj), Hj.
      apply existsb_video_id_key in Hl. now rewrite Hl.
    + rewrite (read_post_str request s Hp Hj), Hj. now rewrite Hs.
Qed.

(** X16. A request is answered 400, with the body that asks for the id, when
    its method is none of OPTIONS, GET and POST, whatever its arguments and
    body; and when it is a POST request whose body is [None] or false as a
    condition, an object without [videoId] or with a value under it that is
    false as a condition, a list without the string "videoId", or a string
    without "videoId" in it. *)
Theorem X16_bad_request (request : Request) :
  (method request <> lit "OPTIONS" -> method request <> lit "GET" ->
   method request <> lit "POST" ->
   handler request = Return bad_request) /\
  (method request = lit "POST" ->
   json_truthy (get_json request) = false \/
   (exists m, get_json request = JDict m /\
              (m !! lit "videoId" = None \/
               exists v, m !! lit "videoId" = Some v /\
                         json_truthy v = false)) \/
   (exists l, get_json request = JList l /\ ~ In (JStr (lit "videoId")) l) \/
   (exists s, get_json request = JStr s /\
              contains s (lit "videoId") = false) ->
   handler request = Return bad_request).
Proof.
  split.
  - intros Ho Hg Hp. apply (handler_falsy_id request JNull Ho); [| reflexivity].
    unfold read_video_id.
    now rewrite (str_eqb_false _ _ Hg), (str_eqb_false _ _ Hp).
  - intros Hp H.
    assert (Hno : method request <> lit "OPTIONS")
      by (rewrite Hp; discriminate).
    destruct H as [Hf | [(m & Hj & Hm) | [(l & Hj & Hl) | (s & Hj & Hs)]]].
    + apply (handler_falsy_id request JNull Hno); [| reflexivity].
      now rewrite (read_post request Hp), Hf.
    + pose proof (read_post_dict request m Hp Hj) as Hr.
      destruct Hm as [Hn | (v & Hv & Hfv)].
      * rewrite Hn in Hr. now apply (handler_falsy_id request JNull Hno).
      * rewrite Hv in Hr. now apply (handler_falsy_id request v Hno).
    + apply (handler_falsy_id request JNull Hno); [| reflexivity].
      rewrite (read_post_list request l Hp Hj).
      destruct (existsb is_video_id_key l) eqn:Ex; [| reflexivity].
      apply existsb_video_id_key in Ex. contradiction.
    + apply (handler_falsy_id request JNull Hno); [| reflexivity].
      now rewrite (read_post_str request s Hp Hj), Hs.
Qed.

(** X17. With any number of arguments but one, [main] exits with status 1
    after the usage line, without a call of the function.  With one
    argument it prints the result of the function for that id and ends
    normally, whether the result is Found or not. *)
Theorem X17_main (argv : list str) :
  (length argv <> 2%nat ->
   main lower ytt_list argv = Return (SysExit 1 usage)) /\
  (forall program video_id,
     argv = [program; video_id] ->
     exists r,
       fetch_japanese_transcript lower Script ytt_list video_id = Return r /\
       main lower ytt_list argv = Return (Printed r)).
Proof.
  split.
  - intros H. unfold main. apply Nat.eqb_neq in H. now rewrite H.
  - intros program video_id ->.
    destruct (fetch_japanese_transcript_runs lower Script ytt_list video_id)
      as (r & E & _).
    exists r. split; [exact E |]. unfold main. simpl. now rewrite E.
Qed.

End CallerFacts.

(** ** The further properties on the sample inputs *)

Lemma X2_witness :
  In ja_manual [ja_auto; english; ja_manual] /\
  is_japanese ascii_lower ja_manual = true /\
  (is_generated ja_manual = true ->
   forall t, In t [ja_auto; english; ja_manual] ->
             is_japanese ascii_lower t = true -> is_generated t = true).
Proof.
  apply (proj2 (X2_selector_sound ascii_lower [ja_auto; english; ja_manual])
           ja_manual).
  reflexivity.
Defined.

Lemma X3_witness :
  exists catalog selected,
    always (Return sample_catalog) video = Return catalog /\
    selector ascii_lower catalog = Some selected /\
    sample_found CloudFunction !! "availableLanguages" =
      Some (VStrList (map track_label
                          (List.filter (is_japanese ascii_lower) catalog))) /\
    In (track_label selected)
       (map track_label (List.filter (is_japanese ascii_lower) catalog)) /\
    sample_found CloudFunction !! "isJapanese" = Some (VBool true).
Proof.
  apply (X3_found_languages ascii_lower CloudFunction
           (always (Return sample_catalog)) video); reflexivity.
Defined.

Lemma X4_witness :
  sample_found Script !! "videoId" = Some (VStr video) /\
  sample_found Script !! "source" = Some (VStr (source_tag Script)) /\
  exists b,
    sample_found Script !! "available" = Some (VBool b) /\
    (b = false <-> is_Some (sample_found Script !! "message")) /\
    (b = true <-> is_Some (sample_found Script !! "segments")).
Proof.
  apply (X4_result_shape ascii_lower Script
           (always (Return sample_catalog)) video).
  reflexivity.
Defined.



Lemma X7_witness :
  fetch_japanese_transcript ascii_lower Script
    (always (Return sample_catalog)) video =
  fetch_japanese_transcript ascii_lower Script
    (always (Return sample_catalog_variant)) video.
Proof.
  apply (X7_only_selected_is_fetched ascii_lower Script _ _ video
           sample_catalog sample_catalog_variant); try reflexivity.
  - repeat constructor.
  - intros s1 s2 H1 H2. vm_compute in H1, H2.
    injection H1 as <-. injection H2 as <-. reflexivity.
Defined.

Lemma X8_witness :
  exists sn l r,
    In sn [music; partial] /\
    snippet_text sn = l ++ lit "[partial] hello" ++ r /\
    forallb isspace l = true /\ forallb isspace r = true /\
    (exists c rest, lit "[partial] hello" = c :: rest /\ isspace c = false) /\
    (exists c rest, lit "[partial] hello" = rest ++ [c] /\ isspace c = false).
Proof.
  apply (X8_segment_text_is_trimmed [music; partial] (segment_of partial)).
  left. reflexivity.
Defined.

Lemma X10_witness : normalize [between] = [].
Proof.
  apply (proj1 (proj2 (X10_bracket_rule between))
           (lit "laughs") (lit " hello ") (lit "music")).
  reflexivity.
Defined.

Lemma X13_witness :
  exists r,
    fetch_japanese_transcript ascii_lower CloudFunction
      (always (Return sample_catalog)) video = Return r /\
    sample_handler get_request = Return (ok_response r).
Proof.
  apply (proj1 (X13_get_request ascii_lower (always (Return sample_catalog))
                  sample_fetch_other sample_in_error sample_getitem_error
                  get_request eq_refl) video).
  - reflexivity.
  - discriminate.
Defined.

Lemma X14_witness : sample_handler post_request = sample_handler get_request.
Proof.
  apply (X14_post_like_get ascii_lower (always (Return sample_catalog))
           sample_fetch_other sample_in_error sample_getitem_error
           post_request get_request {[ lit "videoId" := JStr video ]} video);
    reflexivity.
Defined.

Lemma X15_witness :
  sample_handler post_list_request =
  Return (server_error
            (OtherException (lit "TypeError")
               (lit "list indices must be integers or slices, not str"))).
Proof.
  apply (proj2 (X15_post_body_not_an_object ascii_lower
                  (always (Return sample_catalog)) sample_fetch_other
                  sample_in_error sample_getitem_error
                  post_list_request eq_refl)).
  left. exists [JInt 7; JStr (lit "videoId")]. split; [reflexivity |].
  right. left. reflexivity.
Defined.

Lemma X16_witness : sample_handler put_request = Return bad_request.
Proof.
  apply (proj1 (X16_bad_request ascii_lower (always (Return sample_catalog))
                  sample_fetch_other sample_in_error sample_getitem_error
                  put_request)); discriminate.
Defined.

Lemma X17_witness :
  main ascii_lower (always (Return sample_catalog))
       [lit "fetch_japanese_transcript.py"] = Return (SysExit 1 usage) /\
  exists r,
    fetch_japanese_transcript ascii_lower Script
      (always (Return sample_catalog)) video = Return r /\
    main ascii_lower (always (Return sample_catalog))
         [lit "fetch_japanese_transcript.py"; video] = Return (Printed r).
Proof.
  split.
  - apply (proj1 (X17_main ascii_lower (always (Return sample_catalog))
                    [lit "fetch_japanese_transcript.py"])).
    discriminate.
  - apply (proj2 (X17_main ascii_lower (always (Return sample_catalog))
                    [lit "fetch_japanese_transcript.py"; video])
             (lit "fetch_japanese_transcript.py") video).
    reflexivity.
Defined.

